(** * Damped harmonic oscillator: solver and Laplace analysis

    A shallow embedding of [oscillator_solver.py], [laplace_analysis.py] and
    of the stability classification of [app.py], with the properties of the
    design document stated over it.

    Numbers.  A Python float is idealised as an exact real number extended
    with the three IEEE special values: finite arithmetic is exact (no
    rounding, no overflow, no signed zero), and the special values follow the
    IEEE rules numpy applies ([log10 0 = -inf], [inf - inf = nan], ...).
    Arguments of the two entry points are finite numbers.

    Libraries.  The numpy and scipy functions the source calls are not part
    of the repository.  Those with a closed mathematical description
    ([linspace], [logspace], [log10], [roots] up to degree two,
    [TransferFunction], the magnitude of [bode]) are modelled from their
    documented behaviour; the adaptive integrator [solve_ivp] and the
    unwrapped phase of [bode] stay external calls, answered by a handler.
    Nothing is assumed of the integrator in general: a statement about what
    [solve_damped_oscillator] returns is made of the answer the integrator
    gave to the one problem at hand. *)

From Stdlib Require Import Reals Lra Lia ZArith List Bool Permutation.
Import ListNotations.

Set Implicit Arguments.

(** ** Python floats, idealised *)

Module Float.

Open Scope R_scope.

Inductive float64 : Type :=
| Fin (r : R)
| PInf
| NInf
| NaN.

Definition is_finite (x : float64) : Prop :=
  match x with Fin _ => True | _ => False end.

Definition Rltb (x y : R) : bool := if Rlt_dec x y then true else false.
Definition Reqb (x y : R) : bool := if Req_dec_T x y then true else false.

Definition fneg (x : float64) : float64 :=
  match x with
  | Fin a => Fin (- a)
  | PInf => NInf
  | NInf => PInf
  | NaN => NaN
  end.

Definition fadd (x y : float64) : float64 :=
  match x, y with
  | NaN, _ | _, NaN => NaN
  | Fin a, Fin b => Fin (a + b)
  | PInf, NInf | NInf, PInf => NaN
  | PInf, _ | _, PInf => PInf
  | NInf, _ | _, NInf => NInf
  end.

Definition fsub (x y : float64) : float64 := fadd x (fneg y).

(** The infinity that has the sign of the finite number [a]; [nan] at 0. *)
Definition inf_signed (a : R) : float64 :=
  if Rltb 0 a then PInf else if Rltb a 0 then NInf else NaN.

Definition fmul (x y : float64) : float64 :=
  match x, y with
  | NaN, _ | _, NaN => NaN
  | Fin a, Fin b => Fin (a * b)
  | PInf, Fin b | Fin b, PInf => inf_signed b
  | NInf, Fin b | Fin b, NInf => inf_signed (- b)
  | PInf, PInf | NInf, NInf => PInf
  | PInf, NInf | NInf, PInf => NInf
  end.

(** numpy division: a finite number over zero is an infinity (or [nan] for
    [0/0]), with a warning and no exception. *)
Definition fdiv (x y : float64) : float64 :=
  match x, y with
  | NaN, _ | _, NaN => NaN
  | Fin a, Fin b => if Reqb b 0 then inf_signed a else Fin (a / b)
  | Fin _, _ => Fin 0
  | PInf, Fin b => if Rltb b 0 then NInf else PInf
  | NInf, Fin b => if Rltb b 0 then PInf else NInf
  | _, _ => NaN
  end.

Definition fsin (x : float64) : float64 :=
  match x with Fin a => Fin (sin a) | _ => NaN end.

Definition log10 (x : R) : R := ln x / ln 10.
Definition pow10 (x : R) : R := exp (x * ln 10).

(** [np.log10]: [-inf] at zero and [nan] below, with a warning only. *)
Definition np_log10 (x : float64) : float64 :=
  match x with
  | Fin a => if Rltb 0 a then Fin (log10 a)
             else if Reqb a 0 then NInf else NaN
  | PInf => PInf
  | NInf | NaN => NaN
  end.

(** [np.power(10, x)]. *)
Definition np_power10 (x : float64) : float64 :=
  match x with
  | Fin a => Fin (pow10 a)
  | PInf => PInf
  | NInf => Fin 0
  | NaN => NaN
  end.

Definition of_Z (z : Z) : float64 := Fin (IZR z).

End Float.
Export Float.

(** ** Exceptions and results *)

Inductive exn : Type :=
| ValueError
| IndexError
| LibraryError.

Inductive result (A : Type) : Type :=
| Ok (a : A)
| Err (e : exn).
Arguments Err {A} e.

Definition rbind {A B} (r : result A) (f : A -> result B) : result B :=
  match r with Ok a => f a | Err e => Err e end.

(** Array indexing [a[i]]: out of range raises [IndexError]. *)
Definition index {A} (a : list A) (i : nat) : result A :=
  match nth_error a i with Some x => Ok x | None => Err IndexError end.

(** ** numpy and scipy, as documented *)

Module Lib.

Open Scope R_scope.

Record complex : Type := Cx { Re : R; Im : R }.

Definition cadd (z w : complex) : complex := Cx (Re z + Re w) (Im z + Im w).
Definition cmul (z w : complex) : complex :=
  Cx (Re z * Re w - Im z * Im w) (Re z * Im w + Im z * Re w).
Definition cdiv (z w : complex) : complex :=
  let n := Re w * Re w + Im w * Im w in
  Cx ((Re z * Re w + Im z * Im w) / n) ((Im z * Re w - Re z * Im w) / n).
Definition cabs (z : complex) : R := sqrt (Re z * Re z + Im z * Im z).
Definition czero (z : complex) : bool := Reqb (Re z) 0 && Reqb (Im z) 0.

(** [np.polyval]: Horner's rule, highest coefficient first. *)
Definition polyval (p : list R) (s : complex) : complex :=
  fold_left (fun acc a => cadd (cmul acc s) (Cx a 0)) p (Cx 0 0).

Definition arange (n : nat) : list Z := map Z.of_nat (seq 0 n).

Definition set_last {A} (y : list A) (x : A) : list A := removelast y ++ [x].

(** [np.linspace(start, stop, num)] with the default [endpoint=True]:
    a negative [num] raises [ValueError]; the samples are
    [start + i * step] with [step = (stop - start) / (num - 1)], and the
    last one is overwritten with [stop].  (numpy's branch for a zero step
    computes [(i / div) * delta], the same number in exact arithmetic.) *)
Definition np_linspace (start stop : float64) (num : Z) : result (list float64) :=
  if (num <? 0)%Z then Err ValueError
  else
    let div := (num - 1)%Z in
    let delta := fsub stop start in
    let step := if (0 <? div)%Z then fdiv delta (of_Z div) else delta in
    let y := map (fun i => fadd (fmul (of_Z i) step) start)
                 (arange (Z.to_nat num)) in
    Ok (if (1 <? num)%Z then set_last y stop else y).

(** [np.logspace(start, stop, num)]: [10 ** linspace(start, stop, num)]. *)
Definition np_logspace (start stop : float64) (num : Z) : result (list float64) :=
  rbind (np_linspace start stop num) (fun y => Ok (map np_power10 y)).

Fixpoint trim_zeros_front (p : list R) : list R :=
  match p with
  | a :: q => if Reqb a 0 then trim_zeros_front q else p
  | [] => []
  end.

(** The two roots of [a s^2 + b s + c] for [a <> 0]. *)
Definition quadratic_roots (a b c : R) : list complex :=
  let disc := b * b - 4 * a * c in
  if Rltb disc 0
  then [Cx (- b / (2 * a)) (sqrt (- disc) / (2 * a));
        Cx (- b / (2 * a)) (- sqrt (- disc) / (2 * a))]
  else [Cx ((- b + sqrt disc) / (2 * a)) 0;
        Cx ((- b - sqrt disc) / (2 * a)) 0].

(** [np.roots(p)], coefficients highest degree first: leading zeros are
    dropped and the roots of what remains are returned, in no documented
    order.  Modelled up to degree two (the source passes [[m, c, k]] and
    [[1]]); the last case, a higher degree, is outside the model.  These are
    the exact roots: numpy computes them as eigenvalues in double
    precision, so a real part that is tiny and negative here can be the
    float [0.0] there. *)
Definition np_roots (p : list R) : list complex :=
  match trim_zeros_front p with
  | [] | [_] => []
  | [a; b] => [Cx (- b / a) 0]
  | [a; b; c] => quadratic_roots a b c
  | _ => []
  end.

(** [scipy.signal.TransferFunction(num, den)] for a continuous-time system:
    an all-zero denominator raises [ValueError]; otherwise the leading zeros
    of the denominator are dropped and both polynomials are divided by its
    leading coefficient. *)
Record lti : Type := { tf_num : list R; tf_den : list R }.

Definition TransferFunction (num den : list R) : result lti :=
  if forallb (fun d => Reqb d 0) den then Err ValueError
  else
    let den' := trim_zeros_front den in
    let d0 := hd 1 den' in
    Ok {| tf_num := map (fun x => x / d0) num;
          tf_den := map (fun x => x / d0) den' |}.

(** Magnitude of [scipy.signal.bode] at one frequency:
    [20 * log10 (abs (polyval num s / polyval den s))] at [s = 1j * w].
    A vanishing denominator gives [inf] ([nan] for [0/0]); a frequency
    that is not finite gives [nan]. *)
Definition bode_mag (sys : lti) (w : float64) : float64 :=
  match w with
  | Fin w =>
      let s := Cx 0 w in
      let n := polyval (tf_num sys) s in
      let d := polyval (tf_den sys) s in
      let a := if czero d
               then (if czero n then NaN else PInf)
               else Fin (cabs (cdiv n d)) in
      fmul (Fin 20) (np_log10 a)
  | _ => NaN
  end.

(** The problem handed to [scipy.integrate.solve_ivp]. *)
Inductive ivp_method : Type := RK45.

Record ivp_problem : Type := {
  ivp_fun : float64 -> list float64 -> result (list float64);
  ivp_t_span : float64 * float64;
  ivp_y0 : list float64;
  ivp_t_eval : list float64;
  ivp_method_ : ivp_method;
  ivp_rtol : R;
  ivp_atol : R;
  ivp_dense_output : bool
}.

(** What [solve_ivp] returns: the sample times, one row of samples per
    state component, and the status (0: the end of the span was reached,
    -1: a step failed). *)
Record OdeResult : Type := {
  sol_t : list float64;
  sol_y : list (list float64);
  sol_status : Z
}.

(** The library calls that stay external. *)
Inductive libE : Type -> Type :=
| SolveIvp (p : ivp_problem) : libE OdeResult
| BodePhase (sys : lti) (w : list float64) : libE (list float64).

End Lib.
Export Lib.

(** ** Programs over external calls *)

Inductive prog (A : Type) : Type :=
| Ret (a : A)
| Raise (e : exn)
| Call (X : Type) (ev : libE X) (k : X -> prog A).
Arguments Raise {A} e.
Arguments Call {A X} ev k.

Fixpoint bind {A B} (p : prog A) (f : A -> prog B) : prog B :=
  match p with
  | Ret a => f a
  | Raise e => Raise e
  | Call ev k => Call ev (fun x => bind (k x) f)
  end.

Definition of_result {A} (r : result A) : prog A :=
  match r with Ok a => Ret a | Err e => Raise e end.

Definition call {X} (ev : libE X) : prog X := Call ev (fun x => Ret x).

Notation "x <- p ;; q" := (bind p (fun x => q))
  (at level 61, p at next level, right associativity).

(** A handler answers each external call, or raises. *)
Definition handler : Type := forall X, libE X -> result X.

Fixpoint run {A} (h : handler) (p : prog A) : result A :=
  match p with
  | Ret a => Ok a
  | Raise e => Err e
  | Call ev k => match h _ ev with
                 | Ok x => run h (k x)
                 | Err e => Err e
                 end
  end.

(** ** oscillator_solver.py *)

Definition damped_oscillator_ode (t : float64) (y : list float64)
    (m c k F0 omega : float64) : result (list float64) :=
  match y with
  | [x; v] =>
      let dxdt := v in
      let dvdt :=
        fdiv (fsub (fsub (fmul F0 (fsin (fmul omega t))) (fmul c v)) (fmul k x)) m in
      Ok [dxdt; dvdt]
  | _ => Err ValueError
  end.

Definition trajectory : Type := (list float64 * list float64 * list float64)%type.

Definition ivp_request (m c k F0 omega x0 v0 t_max : R) (t_eval : list float64)
    : ivp_problem :=
  {| ivp_fun := fun t y =>
       damped_oscillator_ode t y (Fin m) (Fin c) (Fin k) (Fin F0) (Fin omega);
     ivp_t_span := (Fin 0, Fin t_max);
     ivp_y0 := [Fin x0; Fin v0];
     ivp_t_eval := t_eval;
     ivp_method_ := RK45;
     ivp_rtol := 1e-8;
     ivp_atol := 1e-10;
     ivp_dense_output := true |}.

Definition solve_damped_oscillator (m c k F0 omega x0 v0 t_max : R)
    (num_points : Z) : prog trajectory :=
  t_eval <- of_result (np_linspace (Fin 0) (Fin t_max) num_points) ;;
  sol <- call (SolveIvp (ivp_request m c k F0 omega x0 v0 t_max t_eval)) ;;
  x <- of_result (index (sol_y sol) 0) ;;
  v <- of_result (index (sol_y sol) 1) ;;
  Ret (sol_t sol, x, v).

(** ** laplace_analysis.py *)

Record transfer_result : Type := {
  frequencies : list float64;
  magnitude : list float64;
  phase : list float64;
  poles : list complex;
  zeros : list complex
}.

Definition calculate_laplace_transform (m c k F0 omega max_freq : R)
    (num_points : Z) : prog transfer_result :=
  let numerator := [1%R] in
  let denominator := [m; c; k] in
  sys <- of_result (TransferFunction numerator denominator) ;;
  let poles := np_roots denominator in
  let zeros := np_roots numerator in
  frequencies <- of_result
    (np_logspace (Fin (-2)) (np_log10 (Fin max_freq)) num_points) ;;
  let w := frequencies in
  let mag := map (bode_mag sys) frequencies in
  phase <- call (BodePhase sys frequencies) ;;
  let forced_magnitude :=
    map (fun x => fadd x (fmul (Fin 20) (np_log10 (fmul (Fin F0) (Fin omega))))) mag in
  Ret {| frequencies := w; magnitude := forced_magnitude; phase := phase;
         poles := poles; zeros := zeros |}.

(** ** app.py: stability classification *)

Inductive status : Type := STABLE | MARGINALLY_STABLE | UNSTABLE.

Definition np_real (zs : list complex) : list R := map Re zs.

Definition system_status (poles : list complex) : status :=
  let real_parts := np_real poles in
  if forallb (fun r => Rltb r 0) real_parts then STABLE
  else if existsb (fun r => Reqb r 0) real_parts then MARGINALLY_STABLE
  else UNSTABLE.

(** * Specification vocabulary *)

Unset Implicit Arguments.
Open Scope R_scope.

(** ** Stability *)


(** ** Handlers *)

(** A handler to exercise the programs with: an integration is answered with
    the initial state held constant over the requested grid, a phase query
    with zeros. *)
Definition frozen_handler : handler :=
  fun X ev =>
    match ev in libE T return result T with
    | SolveIvp p =>
        Ok {| sol_t := ivp_t_eval p;
              sol_y := map (fun y0 => map (fun _ => y0) (ivp_t_eval p)) (ivp_y0 p);
              sol_status := 0 |}
    | BodePhase sys w => Ok (map (fun _ => Fin 0) w)
    end.


(** An integrator that gives up on its first step.  [solve_ivp] collects
    the output samples step by step, and when no step was completed it
    answers with an empty time array and an empty sample array that has no
    rows, and status -1. *)
Definition failed_handler : handler :=
  fun X ev =>
    match ev in libE T return result T with
    | SolveIvp p => Ok {| sol_t := []; sol_y := []; sol_status := -1 |}
    | BodePhase sys w => Ok (map (fun _ => Fin 0) w)
    end.

(** ** Grids and order *)

(** [np.linspace] between two finite numbers, over the reals. *)
Definition grid (a b : R) (n : Z) : list R :=
  let step := if (0 <? n - 1)%Z then (b - a) / IZR (n - 1) else b - a in
  let y := map (fun i => IZR i * step + a) (arange (Z.to_nat n)) in
  if (1 <? n)%Z then set_last y b else y.

(** Order on floats: [nan] compares with nothing. *)
Definition flt (x y : float64) : Prop :=
  match x, y with
  | Fin a, Fin b => a < b
  | NInf, Fin _ | Fin _, PInf | NInf, PInf => True
  | _, _ => False
  end.

(** Each sample is strictly below the next one. *)
Definition ascending (l : list float64) : Prop :=
  forall i x y, nth_error l i = Some x -> nth_error l (S i) = Some y -> flt x y.

(** ** solve *)

(** The three arrays [solve_damped_oscillator] returns, read off the
    integrator's answer. *)
Definition project_solution (sol : OdeResult) : result trajectory :=
  rbind (index (sol_y sol) 0) (fun x =>
  rbind (index (sol_y sol) 1) (fun v => Ok (sol_t sol, x, v))).

(** What [solve_damped_oscillator] does with the integrator's answer. *)
Definition solve_continuation (sol : OdeResult) : prog trajectory :=
  x <- of_result (index (sol_y sol) 0) ;;
  v <- of_result (index (sol_y sol) 1) ;;
  Ret (sol_t sol, x, v).

(** The design document's requirement on [solve]: a non-positive mass or
    duration makes it raise before the integrator is called. *)
Definition solve_rejects_nonpositive : Prop :=
  forall m c k F0 omega x0 v0 t_max (n : Z),
    m <= 0 \/ t_max <= 0 ->
    exists e, solve_damped_oscillator m c k F0 omega x0 v0 t_max n = Raise e.

(** ** analyze *)

(** The record [calculate_laplace_transform] builds once the transfer
    function [sys], the sweep [ws] and the phase [ph] are known. *)
Definition analysis (m c k F0 omega : R) (sys : lti) (ws ph : list float64)
    : transfer_result :=
  {| frequencies := ws;
     magnitude :=
       map (fun x => fadd x (fmul (Fin 20) (np_log10 (fmul (Fin F0) (Fin omega)))))
           (map (bode_mag sys) ws);
     phase := ph;
     poles := np_roots [m; c; k];
     zeros := np_roots [1] |}.

(** The transfer function after scipy's normalisation, for [m <> 0]. *)
Definition normalized (m c k : R) : lti :=
  {| tf_num := [1 / m]; tf_den := [m / m; c / m; k / m] |}.

(** The library answers every phase query, with one value per frequency. *)
Definition phase_total (h : handler) : Prop :=
  forall sys w, exists ph, h _ (BodePhase sys w) = Ok ph /\ length ph = length w.

(** The sweep for a positive upper frequency: [10 ** x] over the grid from
    [-2] to [log10 max_freq]. *)
Definition sweep (max_freq : R) (n : Z) : list float64 :=
  map (fun x => Fin (pow10 x)) (grid (-2) (log10 max_freq) n).

(** How many roots [np.roots [m; c; k]] has. *)
Definition pole_count (m c : R) : nat :=
  if Reqb m 0 then (if Reqb c 0 then 0 else 1) else 2.

(** The design document's requirement on [analyze]: a non-positive mass
    makes it raise before the roots are computed. *)
Definition analyze_rejects_nonpositive_mass : Prop :=
  forall m c k F0 omega max_freq (n : Z),
    m <= 0 ->
    exists e, calculate_laplace_transform m c k F0 omega max_freq n = Raise e.

(** The denominator polynomial [m s^2 + c s + k] at a complex point. *)
Definition denominator_at (m c k : R) (s : complex) : complex :=
  cadd (cadd (cmul (Cx m 0) (cmul s s)) (cmul (Cx c 0) s)) (Cx k 0).

Definition is_pole (m c k : R) (s : complex) : Prop :=
  denominator_at m c k s = Cx 0 0.

(** Every returned pole has real part [-c/(2m)]. *)
Definition poles_on_one_vertical_line : Prop :=
  forall (h : handler) m c k F0 omega max_freq (n : Z) r,
    0 < m -> 0 <= c -> 0 < k ->
    run h (calculate_laplace_transform m c k F0 omega max_freq n) = Ok r ->
    forall p, In p (poles r) -> Re p = - c / (2 * m).

(** The ratio between consecutive samples of the sweep. *)
Definition sweep_ratio (max_freq : R) (n : Z) : R :=
  pow10 ((log10 max_freq - -2) / IZR (n - 1)).

(** What the design document asks of the frequency array, and what holds of
    it: the sample count, both end points, a common ratio between
    consecutive samples, and the direction of the sweep. *)
Record log_spaced (max_freq : R) (n : Z) (ws : list float64) : Prop := {
  sweep_count : length ws = Z.to_nat n;
  sweep_first : nth_error ws 0 = Some (Fin (1 / 100));
  sweep_last : nth_error ws (Z.to_nat n - 1) = Some (Fin max_freq);
  sweep_steps : forall i, (S i < Z.to_nat n)%nat ->
    exists a b,
      nth_error ws i = Some (Fin a) /\ nth_error ws (S i) = Some (Fin b) /\
      0 < a /\ b = a * sweep_ratio max_freq n /\
      (1 / 100 < max_freq -> a < b) /\
      (max_freq < 1 / 100 -> b < a) /\
      (max_freq = 1 / 100 -> b = a)
}.

(** The frequency array is strictly increasing for every positive
    [max_freq]. *)
Definition sweep_always_increasing : Prop :=
  forall (h : handler) m c k F0 omega max_freq (n : Z) r,
    0 < max_freq -> (2 <= n)%Z ->
    run h (calculate_laplace_transform m c k F0 omega max_freq n) = Ok r ->
    ascending (frequencies r).

(** The Bode magnitude, in decibels, of [H(s) = 1 / (m s^2 + c s + k)] at
    [s = j w]: [20 log10 (1 / |m (jw)^2 + c (jw) + k|)], and [inf] where the
    denominator vanishes. *)
Definition homogeneous_db (m c k : R) (w : float64) : float64 :=
  match w with
  | Fin w =>
      let d := denominator_at m c k (Cx 0 w) in
      if czero d then PInf else Fin (20 * log10 (/ cabs d))
  | _ => NaN
  end.

(** The constant [20 log10 (F0 omega)] of the forced response. *)
Definition forcing_db (F0 omega : R) : float64 :=
  fmul (Fin 20) (np_log10 (Fin (F0 * omega))).

(** On valid input, [F0 = 0] included, whatever [analyze] returns holds
    finite magnitudes only. *)
Definition analyze_never_returns_nonfinite : Prop :=
  forall (h : handler) m c k F0 omega max_freq (n : Z) r,
    0 < m -> 0 <= c -> 0 < k -> 0 <= F0 -> 0 < omega -> 0 < max_freq ->
    (2 <= n)%Z ->
    run h (calculate_laplace_transform m c k F0 omega max_freq n) = Ok r ->
    Forall is_finite (magnitude r).

(** * Further source functions *)

(** ** More of numpy *)

(** [np.sqrt]: [nan] below zero, with a warning only. *)
Definition fsqrt (x : float64) : float64 :=
  match x with
  | Fin a => if Rltb a 0 then NaN else Fin (sqrt a)
  | PInf => PInf
  | NInf | NaN => NaN
  end.

Definition fexp (x : float64) : float64 :=
  match x with
  | Fin a => Fin (exp a)
  | PInf => PInf
  | NInf => Fin 0
  | NaN => NaN
  end.

Definition fcos (x : float64) : float64 :=
  match x with Fin a => Fin (cos a) | _ => NaN end.

(** Comparisons: every comparison with [nan] is false. *)
Definition fltb (x y : float64) : bool :=
  match x, y with
  | Fin a, Fin b => Rltb a b
  | NInf, Fin _ | Fin _, PInf | NInf, PInf => true
  | _, _ => false
  end.

Definition feqb (x y : float64) : bool :=
  match x, y with
  | Fin a, Fin b => Reqb a b
  | PInf, PInf | NInf, NInf => true
  | _, _ => false
  end.

(** The angle of the point [(x, y)], in [(-pi, pi]]. *)
Definition atan2 (y x : R) : R :=
  if Rltb 0 x then atan (y / x)
  else if Rltb x 0 then (if Rltb y 0 then atan (y / x) - PI else atan (y / x) + PI)
  else if Rltb 0 y then PI / 2
  else if Rltb y 0 then - PI / 2
  else 0.

(** [np.arctan2(y, x)], with the values C gives to infinite arguments. *)
Definition np_arctan2 (y x : float64) : float64 :=
  match y, x with
  | NaN, _ | _, NaN => NaN
  | Fin a, Fin b => Fin (atan2 a b)
  | Fin _, PInf => Fin 0
  | Fin a, NInf => if Rltb a 0 then Fin (- PI) else Fin PI
  | PInf, Fin _ => Fin (PI / 2)
  | NInf, Fin _ => Fin (- PI / 2)
  | PInf, PInf => Fin (PI / 4)
  | PInf, NInf => Fin (3 * PI / 4)
  | NInf, PInf => Fin (- PI / 4)
  | NInf, NInf => Fin (- 3 * PI / 4)
  end.

Definition zip_with {A B C} (f : A -> B -> C) (a : list A) (b : list B) : list C :=
  map (fun p => f (fst p) (snd p)) (combine a b).

(** [a + b] on one-dimensional arrays: element by element when the lengths
    agree, an array of length one is broadcast, any other pair of lengths
    raises [ValueError]. *)
Definition np_add (a b : list float64) : result (list float64) :=
  if Nat.eqb (length a) (length b) then Ok (zip_with fadd a b)
  else match a, b with
       | [x], _ => Ok (map (fadd x) b)
       | _, [y] => Ok (map (fun x => fadd x y) a)
       | _, _ => Err ValueError
       end.

(** ** Python float division *)

(** Division of one Python float by another raises [ZeroDivisionError] on a
    zero divisor, where numpy's division returns [inf] or [nan]. *)
Inductive checked (A : Type) : Type :=
| Value (a : A)
| ZeroDivisionError.
Arguments Value {A} a.
Arguments ZeroDivisionError {A}.

Definition cbind {A B} (r : checked A) (f : A -> checked B) : checked B :=
  match r with Value a => f a | ZeroDivisionError => ZeroDivisionError end.

Definition py_div (a b : R) : checked R :=
  if Reqb b 0 then ZeroDivisionError else Value (a / b).

(** ** laplace_analysis.py: the analytical solution *)

(** [analytical_solution_laplace(t, m, c, k, F0, omega, x0, v0)], with [t]
    an array and the other arguments Python floats, as its docstring says.
    [k / m] and [F0 * c * omega / denom] divide Python floats; every other
    division has a numpy number on one side.  With exact arithmetic no
    power leaves the float range, so the [OverflowError] that [x0 ** 2] and
    [omega ** 2] raise on Python floats beyond about [1e154] has no
    counterpart here. *)
Definition analytical_solution_laplace (t : list float64)
    (m c k F0 omega x0 v0 : R) : checked (list float64) :=
  cbind (py_div k m) (fun k_over_m =>
  let omega_n := fsqrt (Fin k_over_m) in
  let zeta := fdiv (Fin c) (fmul (Fin 2) (fsqrt (Fin (m * k)))) in
  let x_hom :=
    if fltb zeta (Fin 1) then
      let omega_d := fmul omega_n (fsqrt (fsub (Fin 1) (fmul zeta zeta))) in
      let b := fadd (Fin v0) (fmul (fmul zeta omega_n) (Fin x0)) in
      let A := fsqrt (fadd (Fin (x0 * x0))
                           (fmul (fdiv b omega_d) (fdiv b omega_d))) in
      let phi := np_arctan2 (fmul omega_d (Fin x0)) b in
      map (fun ti => fmul (fmul A (fexp (fmul (fmul (fneg zeta) omega_n) ti)))
                          (fcos (fsub (fmul omega_d ti) phi))) t
    else if feqb zeta (Fin 1) then
      let A1 := Fin x0 in
      let A2 := fadd (Fin v0) (fmul omega_n (Fin x0)) in
      map (fun ti => fmul (fadd A1 (fmul A2 ti)) (fexp (fmul (fneg omega_n) ti))) t
    else
      let root := fsqrt (fsub (fmul zeta zeta) (Fin 1)) in
      let r1 := fadd (fmul (fneg zeta) omega_n) (fmul omega_n root) in
      let r2 := fsub (fmul (fneg zeta) omega_n) (fmul omega_n root) in
      let A1 := fdiv (fsub (Fin v0) (fmul r2 (Fin x0))) (fsub r1 r2) in
      let A2 := fdiv (fsub (fmul r1 (Fin x0)) (Fin v0)) (fsub r1 r2) in
      map (fun ti => fadd (fmul A1 (fexp (fmul r1 ti)))
                          (fmul A2 (fexp (fmul r2 ti)))) t in
  let detune := k - m * (omega * omega) in
  let denom := detune * detune + (c * omega) * (c * omega) in
  let A_forced := fdiv (fmul (Fin F0) (fsqrt (Fin (detune * detune)))) (Fin denom) in
  cbind (py_div (F0 * c * omega) denom) (fun B_forced =>
  let x_part :=
    map (fun ti =>
           fmul (fdiv (Fin F0) (fsqrt (Fin denom)))
                (fsin (fsub (fmul (Fin omega) ti)
                            (np_arctan2 (Fin (c * omega)) (Fin detune))))) t in
  Value (zip_with fadd x_hom x_part))).

(** ** app.py: sidebar characteristics and energy *)

(** [omega_n = np.sqrt(k / m)] and [zeta = c / (2 * np.sqrt(m * k))]. *)
Definition system_characteristics (m c k : R) : checked (float64 * float64) :=
  cbind (py_div k m) (fun k_over_m =>
  let omega_n := fsqrt (Fin k_over_m) in
  let zeta := fdiv (Fin c) (fmul (Fin 2) (fsqrt (Fin (m * k)))) in
  Value (omega_n, zeta)).

(** [kinetic = 0.5 * m * v**2], [potential = 0.5 * k * x**2] and their sum,
    on the arrays [solve_damped_oscillator] returned. *)
Definition energy_analysis (m k : R) (x v : list float64)
    : result (list float64 * list float64 * list float64) :=
  let kinetic := map (fun vi => fmul (Fin (0.5 * m)) (fmul vi vi)) v in
  let potential := map (fun xi => fmul (Fin (0.5 * k)) (fmul xi xi)) x in
  rbind (np_add kinetic potential) (fun total => Ok (kinetic, potential, total)).

(** ** Vocabulary for the further properties *)

(** The steady-state response the analytical solution adds: amplitude
    [F0 / |m (j omega)^2 + c (j omega) + k|], the forcing amplitude times
    the magnitude of the transfer function at the forcing frequency. *)
Definition steady_state (m c k F0 omega tau : R) : R :=
  F0 / cabs (denominator_at m c k (Cx 0 omega))
  * sin (omega * tau - atan2 (c * omega) (k - m * (omega * omega))).

(** The denominator [(k - m omega^2)^2 + (c omega)^2] of the particular
    solution. *)
Definition forcing_denominator (m c k omega : R) : R :=
  (k - m * (omega * omega)) * (k - m * (omega * omega))
  + (c * omega) * (c * omega).

(** * Properties *)

(** ** Boolean tests on reals *)

Lemma Rltb_true (x y : R) : Rltb x y = true <-> x < y.
Proof. unfold Rltb. destruct (Rlt_dec x y); split; intros; try easy. Qed.

Lemma Rltb_false (x y : R) : Rltb x y = false <-> y <= x.
Proof.
  unfold Rltb. destruct (Rlt_dec x y); split; intros; try easy; lra.
Qed.

Lemma Reqb_true (x y : R) : Reqb x y = true <-> x = y.
Proof. unfold Reqb. destruct (Req_dec_T x y); split; intros; try easy. Qed.

Lemma Reqb_false (x y : R) : Reqb x y = false <-> x <> y.
Proof. unfold Reqb. destruct (Req_dec_T x y); split; intros; try easy. Qed.

(** Decide the tests that occur in a goal from the linear facts at hand. *)
Ltac rtest :=
  repeat match goal with
  | |- context [Rltb ?x ?y] =>
      first [ replace (Rltb x y) with true by (symmetry; apply Rltb_true; lra)
            | replace (Rltb x y) with false by (symmetry; apply Rltb_false; lra) ]
  | |- context [Reqb ?x ?y] =>
      first [ replace (Reqb x y) with true by (symmetry; apply Reqb_true; lra)
            | replace (Reqb x y) with false by (symmetry; apply Reqb_false; lra) ]
  end.

(** ** Stability classification *)

Lemma all_negative_iff (ps : list complex) :
  forallb (fun r => Rltb r 0) (np_real ps) = true <-> Forall (fun p => Re p < 0) ps.
Proof.
  unfold np_real. rewrite forallb_forall, Forall_forall. split.
  - intros H p Hp. apply Rltb_true, H, in_map, Hp.
  - intros H r Hr. apply in_map_iff in Hr as [p [<- Hp]].
    apply Rltb_true, H, Hp.
Qed.

Lemma some_zero_iff (ps : list complex) :
  existsb (fun r => Reqb r 0) (np_real ps) = true <-> Exists (fun p => Re p = 0) ps.
Proof.
  unfold np_real. rewrite existsb_exists, Exists_exists. split.
  - intros [r [Hr Hz]]. apply in_map_iff in Hr as [p [<- Hp]].
    exists p. split; [exact Hp | apply Reqb_true, Hz].
  - intros [p [Hp Hz]]. exists (Re p). split; [apply in_map, Hp | apply Reqb_true, Hz].
Qed.

Lemma system_status_stable (ps : list complex) :
  system_status ps = STABLE <-> Forall (fun p => Re p < 0) ps.
Proof.
  rewrite <- all_negative_iff. unfold system_status.
  destruct (forallb _ (np_real ps)); [easy|].
  destruct (existsb _ (np_real ps)); easy.
Qed.

Lemma system_status_marginal (ps : list complex) :
  system_status ps = MARGINALLY_STABLE <->
  Exists (fun p => Re p = 0) ps /\ ~ Forall (fun p => Re p < 0) ps.
Proof.
  rewrite <- all_negative_iff, <- some_zero_iff. unfold system_status.
  destruct (forallb _ (np_real ps)); [intuition congruence|].
  destruct (existsb _ (np_real ps)); intuition congruence.
Qed.






(** ** Running programs *)

Lemma run_bind {A B} (h : handler) (p : prog A) (f : A -> prog B) :
  run h (bind p f) = rbind (run h p) (fun a => run h (f a)).
Proof.
  induction p as [a|e|X ev k IH]; simpl; try reflexivity.
  destruct (h X ev); simpl; [apply IH | reflexivity].
Qed.

Lemma run_of_result {A} (h : handler) (r : result A) : run h (of_result r) = r.
Proof. destruct r; reflexivity. Qed.

Lemma run_call {X} (h : handler) (ev : libE X) : run h (call ev) = h X ev.
Proof. unfold call; simpl. destruct (h X ev); reflexivity. Qed.

(** ** The sampling grid *)

Lemma set_last_map {A B} (f : A -> B) (y : list A) (x : A) :
  set_last (map f y) (f x) = map f (set_last y x).
Proof.
  unfold set_last. rewrite map_app. f_equal.
  induction y as [|a [|b y] IH]; simpl; try reflexivity.
  simpl in IH. now rewrite IH.
Qed.

Lemma removelast_length {A} (y : list A) :
  y <> [] -> length (removelast y) = pred (length y).
Proof.
  intros _. rewrite removelast_firstn_len, length_firstn. lia.
Qed.

Lemma set_last_length {A} (y : list A) (x : A) :
  y <> [] -> length (set_last y x) = length y.
Proof.
  intros Hy. unfold set_last. rewrite length_app, removelast_length by exact Hy.
  destruct y; [contradiction|]. simpl. lia.
Qed.

Lemma np_linspace_finite (a b : R) (n : Z) :
  (0 <= n)%Z -> np_linspace (Fin a) (Fin b) n = Ok (map Fin (grid a b n)).
Proof.
  intros Hn. unfold np_linspace, grid.
  replace (n <? 0)%Z with false by (symmetry; apply Z.ltb_ge; lia).
  f_equal. simpl fsub. destruct (0 <? n - 1)%Z eqn:Hdiv.
  - apply Z.ltb_lt in Hdiv.
    assert (Hnz : Reqb (IZR (n - 1)) 0 = false).
    { apply Reqb_false. apply not_0_IZR. lia. }
    unfold of_Z at 1. simpl fdiv. rewrite Hnz.
    replace (1 <? n)%Z with true by (symmetry; apply Z.ltb_lt; lia).
    rewrite <- set_last_map. f_equal. rewrite map_map.
    apply map_ext. intros i. unfold of_Z. simpl. f_equal; lra.
  - apply Z.ltb_ge in Hdiv.
    replace (1 <? n)%Z with false by (symmetry; apply Z.ltb_ge; lia).
    rewrite map_map. apply map_ext. intros i. unfold of_Z. simpl. f_equal; lra.
Qed.

Lemma arange_length (n : nat) : length (arange n) = n.
Proof. unfold arange. now rewrite length_map, length_seq. Qed.

Lemma arange_nth (n i : nat) :
  (i < n)%nat -> nth_error (arange n) i = Some (Z.of_nat i).
Proof.
  intros Hi. unfold arange. rewrite nth_error_map, nth_error_seq.
  destruct (Nat.ltb_spec i n); [reflexivity | lia].
Qed.

Lemma grid_length (a b : R) (n : Z) : (0 <= n)%Z -> length (grid a b n) = Z.to_nat n.
Proof.
  intros Hn. unfold grid. destruct (1 <? n)%Z eqn:H1.
  - apply Z.ltb_lt in H1. rewrite set_last_length.
    + now rewrite length_map, arange_length.
    + intros Habs. apply (f_equal (@length R)) in Habs.
      rewrite length_map, arange_length in Habs. simpl in Habs. lia.
  - now rewrite length_map, arange_length.
Qed.

Lemma set_last_nth_front {A} (y : list A) (x : A) (i : nat) :
  (S i < length y)%nat -> nth_error (set_last y x) i = nth_error y i.
Proof.
  intros Hi. unfold set_last.
  assert (Hy : y <> []) by (destruct y; [simpl in Hi; lia | discriminate]).
  rewrite nth_error_app1 by (rewrite removelast_length by exact Hy; lia).
  rewrite removelast_firstn_len, nth_error_firstn.
  destruct (Nat.ltb_spec i (pred (length y))); [reflexivity | lia].
Qed.

Lemma set_last_nth_last {A} (y : list A) (x : A) :
  y <> [] -> nth_error (set_last y x) (pred (length y)) = Some x.
Proof.
  intros Hy. unfold set_last.
  rewrite nth_error_app2 by (rewrite removelast_length by exact Hy; lia).
  rewrite removelast_length by exact Hy.
  now rewrite Nat.sub_diag.
Qed.

(** The samples of a grid of at least two points: sample [i] is
    [a + i * (b - a) / (n - 1)]. *)
Lemma grid_nth (a b : R) (n : Z) (i : nat) :
  (2 <= n)%Z -> (i < Z.to_nat n)%nat ->
  nth_error (grid a b n) i = Some (a + INR i * ((b - a) / IZR (n - 1))).
Proof.
  intros Hn Hi. unfold grid.
  replace (0 <? n - 1)%Z with true by (symmetry; apply Z.ltb_lt; lia).
  replace (1 <? n)%Z with true by (symmetry; apply Z.ltb_lt; lia).
  set (f := fun j : Z => IZR j * ((b - a) / IZR (n - 1)) + a).
  assert (Hlen : length (map f (arange (Z.to_nat n))) = Z.to_nat n)
    by now rewrite length_map, arange_length.
  destruct (Nat.eq_dec (S i) (Z.to_nat n)) as [Hlast|Hfront].
  - replace i with (pred (length (map f (arange (Z.to_nat n))))) at 1
      by (rewrite Hlen; lia).
    rewrite set_last_nth_last
      by (intros Habs; rewrite Habs in Hlen; simpl in Hlen; lia).
    f_equal. rewrite INR_IZR_INZ.
    replace (Z.of_nat i) with (n - 1)%Z by lia.
    field. apply not_0_IZR. lia.
  - rewrite set_last_nth_front by (rewrite Hlen; lia).
    rewrite nth_error_map, arange_nth by exact Hi. simpl. f_equal.
    unfold f. rewrite INR_IZR_INZ. lra.
Qed.

(** ** The step of the grid *)


(** ** solve *)

Lemma run_solve_continuation (h : handler) (sol : OdeResult) :
  run h (solve_continuation sol) = project_solution sol.
Proof.
  unfold solve_continuation, project_solution.
  destruct (index (sol_y sol) 0); simpl; [|reflexivity].
  destruct (index (sol_y sol) 1); reflexivity.
Qed.

Lemma solve_unfold m c k F0 omega x0 v0 t_max (n : Z) :
  (0 <= n)%Z ->
  solve_damped_oscillator m c k F0 omega x0 v0 t_max n =
  Call (SolveIvp (ivp_request m c k F0 omega x0 v0 t_max (map Fin (grid 0 t_max n))))
       solve_continuation.
Proof.
  intros Hn. unfold solve_damped_oscillator.
  rewrite np_linspace_finite by exact Hn. reflexivity.
Qed.

Lemma solve_negative_num_points m c k F0 omega x0 v0 t_max (n : Z) :
  (n < 0)%Z ->
  solve_damped_oscillator m c k F0 omega x0 v0 t_max n = Raise ValueError.
Proof.
  intros Hn. unfold solve_damped_oscillator, np_linspace.
  replace (n <? 0)%Z with true by (symmetry; apply Z.ltb_lt; lia).
  reflexivity.
Qed.

(** C1.  [solve_damped_oscillator] checks neither the mass nor the
    duration.  For every argument tuple with a sample count that numpy
    accepts, whatever the signs of [m] and [t_max], its first step is the
    call of the integrator on the grid [linspace(0, t_max, num_points)], and
    its outcome is the integrator's: the integrator's exception if it raises,
    else the time array and the first two rows of the returned samples. *)
Theorem solve_no_validation (h : handler) m c k F0 omega x0 v0 t_max (n : Z) :
  (0 <= n)%Z ->
  let req := ivp_request m c k F0 omega x0 v0 t_max (map Fin (grid 0 t_max n)) in
  solve_damped_oscillator m c k F0 omega x0 v0 t_max n =
    Call (SolveIvp req) solve_continuation /\
  run h (solve_damped_oscillator m c k F0 omega x0 v0 t_max n) =
    rbind (h _ (SolveIvp req)) project_solution.
Proof.
  intros Hn req. split; [apply solve_unfold, Hn|].
  rewrite solve_unfold by exact Hn. simpl. fold req.
  destruct (h _ (SolveIvp req)) as [sol|e]; simpl; [|reflexivity].
  apply run_solve_continuation.
Qed.

Lemma solve_no_validation_witness :
  (0 <= 3)%Z /\
  run frozen_handler (solve_damped_oscillator (-1) (1/2) 1 0 1 1 0 (-2) 3) =
    rbind (frozen_handler _
             (SolveIvp (ivp_request (-1) (1/2) 1 0 1 1 0 (-2)
                                    (map Fin (grid 0 (-2) 3)))))
          project_solution.
Proof.
  split; [lia|].
  apply (solve_no_validation frozen_handler (-1) (1/2) 1 0 1 1 0 (-2) 3).
  lia.
Defined.

Lemma solve_rejects_nonpositive_fails : ~ solve_rejects_nonpositive.
Proof.
  intros H. destruct (H (-1) (1/2) 1 0 1 1 0 (-2) 3%Z) as [e He]; [lra|].
  rewrite solve_unfold in He by lia. discriminate.
Qed.

(** At [m = -1], [t_max = -2] and three samples nothing is raised: the program is the call of the integrator, and once
    that answers, three arrays of three samples come back. *)
Lemma solve_accepts_negative_mass_and_duration :
  (-1 <= 0 \/ -2 <= 0) /\
  ~ (exists e, solve_damped_oscillator (-1) (1/2) 1 0 1 1 0 (-2) 3 = Raise e) /\
  exists t x v,
    run frozen_handler (solve_damped_oscillator (-1) (1/2) 1 0 1 1 0 (-2) 3)
      = Ok (t, x, v) /\
    length t = 3%nat /\ length x = 3%nat /\ length v = 3%nat.
Proof.
  split; [left; lra|]. split.
  - intros [e He]. rewrite solve_unfold in He by lia. discriminate.
  - rewrite solve_unfold by lia. simpl. repeat eexists.
Qed.

Lemma index_some {A} (l : list A) (i : nat) :
  (i < length l)%nat -> exists x, index l i = Ok x /\ In x l.
Proof.
  intros Hi. unfold index. destruct (nth_error l i) as [x|] eqn:Hx.
  - exists x. split; [reflexivity | eapply nth_error_In, Hx].
  - apply nth_error_None in Hx. lia.
Qed.





(** ** analyze *)

Lemma frozen_handler_phase_total : phase_total frozen_handler.
Proof. intros sys w. eexists. split; [reflexivity | apply length_map]. Qed.

Lemma np_linspace_returns (a b : float64) (n : Z) :
  (0 <= n)%Z -> exists y, np_linspace a b n = Ok y.
Proof.
  intros Hn. unfold np_linspace.
  replace (n <? 0)%Z with false by (symmetry; apply Z.ltb_ge; lia).
  eexists. reflexivity.
Qed.

Lemma np_logspace_returns (a b : float64) (n : Z) :
  (0 <= n)%Z -> exists y, np_logspace a b n = Ok y.
Proof.
  intros Hn. unfold np_logspace.
  destruct (np_linspace_returns a b n Hn) as [y ->]. eexists. reflexivity.
Qed.

Lemma np_linspace_length (a b : float64) (n : Z) (y : list float64) :
  np_linspace a b n = Ok y -> length y = Z.to_nat n.
Proof.
  unfold np_linspace. destruct (n <? 0)%Z eqn:Hneg; [discriminate|].
  intros H. injection H as <-.
  destruct (1 <? n)%Z eqn:H1.
  - apply Z.ltb_lt in H1. rewrite set_last_length.
    + now rewrite length_map, arange_length.
    + intros Habs. apply (f_equal (@length float64)) in Habs.
      rewrite length_map, arange_length in Habs. simpl in Habs. lia.
  - now rewrite length_map, arange_length.
Qed.

Lemma np_logspace_length (a b : float64) (n : Z) (y : list float64) :
  np_logspace a b n = Ok y -> length y = Z.to_nat n.
Proof.
  unfold np_logspace. destruct (np_linspace a b n) as [l|e] eqn:Hl; [|discriminate].
  simpl. intros H. injection H as <-. rewrite length_map.
  apply (np_linspace_length a b n l Hl).
Qed.

Lemma np_logspace_negative (a b : float64) (n : Z) :
  (n < 0)%Z -> np_logspace a b n = Err ValueError.
Proof.
  intros Hn. unfold np_logspace, np_linspace.
  replace (n <? 0)%Z with true by (symmetry; apply Z.ltb_lt; lia).
  reflexivity.
Qed.

Lemma np_logspace_sweep (max_freq : R) (n : Z) :
  0 < max_freq -> (0 <= n)%Z ->
  np_logspace (Fin (-2)) (np_log10 (Fin max_freq)) n = Ok (sweep max_freq n).
Proof.
  intros Hf Hn. unfold np_logspace, np_log10. rtest.
  rewrite np_linspace_finite by exact Hn. simpl. unfold sweep.
  now rewrite map_map.
Qed.

Lemma TransferFunction_normalized (m c k : R) :
  m <> 0 -> TransferFunction [1] [m; c; k] = Ok (normalized m c k).
Proof.
  intros Hm. unfold TransferFunction. simpl.
  replace (Reqb m 0) with false by (symmetry; now apply Reqb_false).
  reflexivity.
Qed.

Lemma TransferFunction_all_zero : TransferFunction [1] [0; 0; 0] = Err ValueError.
Proof. unfold TransferFunction. simpl. rtest. reflexivity. Qed.

Lemma analyze_unfold m c k F0 omega max_freq (n : Z) :
  m <> 0 -> (0 <= n)%Z ->
  exists ws,
    np_logspace (Fin (-2)) (np_log10 (Fin max_freq)) n = Ok ws /\
    calculate_laplace_transform m c k F0 omega max_freq n =
      Call (BodePhase (normalized m c k) ws)
           (fun ph => Ret (analysis m c k F0 omega (normalized m c k) ws ph)).
Proof.
  intros Hm Hn.
  destruct (np_logspace_returns (Fin (-2)) (np_log10 (Fin max_freq)) n Hn) as [ws Hws].
  exists ws. split; [exact Hws|].
  unfold calculate_laplace_transform.
  rewrite TransferFunction_normalized by exact Hm. rewrite Hws. reflexivity.
Qed.

Lemma analyze_returns (h : handler) m c k F0 omega max_freq (n : Z) :
  phase_total h -> m <> 0 -> (0 <= n)%Z ->
  exists ws ph,
    np_logspace (Fin (-2)) (np_log10 (Fin max_freq)) n = Ok ws /\
    h _ (BodePhase (normalized m c k) ws) = Ok ph /\
    run h (calculate_laplace_transform m c k F0 omega max_freq n) =
      Ok (analysis m c k F0 omega (normalized m c k) ws ph).
Proof.
  intros Hh Hm Hn.
  destruct (analyze_unfold m c k F0 omega max_freq n Hm Hn) as [ws [Hws Hp]].
  destruct (Hh (normalized m c k) ws) as [ph [Hph _]].
  exists ws, ph. split; [exact Hws|]. split; [exact Hph|].
  rewrite Hp. simpl. now rewrite Hph.
Qed.

Lemma np_roots_quadratic (m c k : R) :
  m <> 0 -> np_roots [m; c; k] = quadratic_roots m c k.
Proof.
  intros Hm. unfold np_roots. simpl.
  replace (Reqb m 0) with false by (symmetry; now apply Reqb_false).
  reflexivity.
Qed.

Lemma np_roots_constant : np_roots [1] = [].
Proof. unfold np_roots. simpl. rtest. reflexivity. Qed.

Lemma TransferFunction_returns (m c k : R) :
  ~ (m = 0 /\ c = 0 /\ k = 0) -> exists sys, TransferFunction [1] [m; c; k] = Ok sys.
Proof.
  intros Hnz. unfold TransferFunction.
  destruct (forallb (fun d => Reqb d 0) [m; c; k]) eqn:Hall.
  - exfalso. apply Hnz. simpl in Hall.
    apply andb_prop in Hall as [Hm Hall]. apply andb_prop in Hall as [Hc Hall].
    apply andb_prop in Hall as [Hk _].
    apply Reqb_true in Hm, Hc, Hk. now repeat split.
  - eexists. reflexivity.
Qed.

Lemma analyze_unfold_general m c k F0 omega max_freq (n : Z) :
  ~ (m = 0 /\ c = 0 /\ k = 0) -> (0 <= n)%Z ->
  exists sys ws,
    np_logspace (Fin (-2)) (np_log10 (Fin max_freq)) n = Ok ws /\
    calculate_laplace_transform m c k F0 omega max_freq n =
      Call (BodePhase sys ws) (fun ph => Ret (analysis m c k F0 omega sys ws ph)).
Proof.
  intros Hnz Hn.
  destruct (TransferFunction_returns m c k Hnz) as [sys Hsys].
  destruct (np_logspace_returns (Fin (-2)) (np_log10 (Fin max_freq)) n Hn) as [ws Hws].
  exists sys, ws. split; [exact Hws|]. unfold calculate_laplace_transform.
  rewrite Hsys, Hws. reflexivity.
Qed.

Lemma quadratic_roots_length (a b c : R) : length (quadratic_roots a b c) = 2%nat.
Proof. unfold quadratic_roots. destruct (Rltb _ 0); reflexivity. Qed.

Lemma np_roots_count (m c k : R) : length (np_roots [m; c; k]) = pole_count m c.
Proof.
  unfold np_roots, pole_count. simpl.
  destruct (Reqb m 0); [|apply quadratic_roots_length].
  destruct (Reqb c 0); [|reflexivity].
  destruct (Reqb k 0); reflexivity.
Qed.

(** C2.  [calculate_laplace_transform] has no check on the mass.  With a
    sample count numpy accepts, it raises before root-finding only when
    [m], [c] and [k] are all zero (the [ValueError] of scipy's
    [TransferFunction]); for every other [m], negative or zero, it goes on
    to the phase query and returns, with as many poles as
    [np.roots [m; c; k]] finds: two for [m <> 0], one for [m = 0] and
    [c <> 0], none for [m = c = 0]. *)
Theorem analyze_no_mass_validation (h : handler) m c k F0 omega max_freq (n : Z) :
  phase_total h -> (0 <= n)%Z ->
  (m = 0 /\ c = 0 /\ k = 0 ->
     calculate_laplace_transform m c k F0 omega max_freq n = Raise ValueError) /\
  (~ (m = 0 /\ c = 0 /\ k = 0) ->
     (forall e, calculate_laplace_transform m c k F0 omega max_freq n <> Raise e) /\
     exists r,
       run h (calculate_laplace_transform m c k F0 omega max_freq n) = Ok r /\
       poles r = np_roots [m; c; k] /\
       length (poles r) = pole_count m c).
Proof.
  intros Hh Hn. split.
  - intros [-> [-> ->]]. unfold calculate_laplace_transform.
    now rewrite TransferFunction_all_zero.
  - intros Hnz.
    destruct (analyze_unfold_general m c k F0 omega max_freq n Hnz Hn)
      as [sys [ws [_ Hp]]].
    split; [intros e; rewrite Hp; discriminate|].
    destruct (Hh sys ws) as [ph [Hph _]].
    exists (analysis m c k F0 omega sys ws ph). split; [|split].
    + rewrite Hp. simpl. now rewrite Hph.
    + reflexivity.
    + apply np_roots_count.
Qed.

Lemma analyze_no_mass_validation_witness :
  exists r,
    run frozen_handler (calculate_laplace_transform (-1) 0 1 1 1 100 1000) = Ok r /\
    poles r = np_roots [-1; 0; 1] /\
    length (poles r) = pole_count (-1) 0.
Proof.
  apply (analyze_no_mass_validation frozen_handler (-1) 0 1 1 1 100 1000
           frozen_handler_phase_total); [lia | lra].
Defined.

Lemma analyze_rejects_nonpositive_mass_fails : ~ analyze_rejects_nonpositive_mass.
Proof.
  intros H. destruct (H 0 1 1 1 1 100 2%Z) as [e He]; [lra|].
  destruct (analyze_unfold_general 0 1 1 1 1 100 2) as [sys [ws [_ Hp]]];
    [lra | lia |].
  rewrite Hp in He. discriminate.
Qed.

(** At [m = 0], [c = k = 1] nothing is raised:
    the degenerate denominator [s + 1] goes through root-finding and a
    single pole, [-1], comes back. *)
Lemma analyze_accepts_zero_mass :
  0 <= 0 /\
  ~ (exists e, calculate_laplace_transform 0 1 1 1 1 100 2 = Raise e) /\
  exists r,
    run frozen_handler (calculate_laplace_transform 0 1 1 1 1 100 2) = Ok r /\
    poles r = [Cx (- 1 / 1) 0].
Proof.
  split; [lra|]. split.
  - intros [e He].
    destruct (analyze_unfold_general 0 1 1 1 1 100 2) as [sys [ws [_ Hp]]];
      [lra | lia |].
    rewrite Hp in He. discriminate.
  - destruct (analyze_unfold_general 0 1 1 1 1 100 2) as [sys [ws [_ Hp]]];
      [lra | lia |].
    exists (analysis 0 1 1 1 1 sys ws (map (fun _ => Fin 0) ws)). split.
    + rewrite Hp. reflexivity.
    + unfold analysis, np_roots; simpl. rtest. reflexivity.
Qed.

(** ** Poles *)

Lemma is_pole_iff (m c k x y : R) :
  is_pole m c k (Cx x y) <->
  m * (x * x - y * y) + c * x + k = 0 /\ y * (2 * m * x + c) = 0.
Proof.
  unfold is_pole, denominator_at, cadd, cmul; simpl. split.
  - intros H. injection H as Hre Him. split; lra.
  - intros [Hre Him]. f_equal; lra.
Qed.

Lemma quadratic_roots_are_poles (m c k : R) (s : complex) :
  m <> 0 -> In s (quadratic_roots m c k) -> is_pole m c k s.
Proof.
  intros Hm Hin. unfold quadratic_roots in Hin.
  destruct (Rltb (c * c - 4 * m * k) 0) eqn:Hd.
  - apply Rltb_true in Hd.
    assert (Hq : sqrt (- (c * c - 4 * m * k)) * sqrt (- (c * c - 4 * m * k))
                 = - (c * c - 4 * m * k)) by (apply sqrt_sqrt; lra).
    set (q := sqrt (- (c * c - 4 * m * k))) in *.
    assert (Hre : m * (- c / (2 * m) * (- c / (2 * m)) - q / (2 * m) * (q / (2 * m)))
                  + c * (- c / (2 * m)) + k = 0).
    { replace (q / (2 * m) * (q / (2 * m))) with ((q * q) / (4 * m * m))
        by (field; exact Hm).
      rewrite Hq. field. exact Hm. }
    destruct Hin as [<-|[<-|[]]]; apply is_pole_iff; split.
    + exact Hre.
    + field. exact Hm.
    + replace (- q / (2 * m) * (- q / (2 * m))) with (q / (2 * m) * (q / (2 * m)))
        by (field; exact Hm).
      exact Hre.
    + field. exact Hm.
  - apply Rltb_false in Hd.
    assert (Hq : sqrt (c * c - 4 * m * k) * sqrt (c * c - 4 * m * k)
                 = c * c - 4 * m * k) by (apply sqrt_sqrt; lra).
    set (q := sqrt (c * c - 4 * m * k)) in *.
    destruct Hin as [<-|[<-|[]]]; apply is_pole_iff; split; try lra.
    + replace (m * ((- c + q) / (2 * m) * ((- c + q) / (2 * m)) - 0 * 0)
               + c * ((- c + q) / (2 * m)) + k)
        with ((q * q - (c * c - 4 * m * k)) / (4 * m)) by (field; exact Hm).
      rewrite Hq. field. exact Hm.
    + replace (m * ((- c - q) / (2 * m) * ((- c - q) / (2 * m)) - 0 * 0)
               + c * ((- c - q) / (2 * m)) + k)
        with ((q * q - (c * c - 4 * m * k)) / (4 * m)) by (field; exact Hm).
      rewrite Hq. field. exact Hm.
Qed.

Lemma poles_are_quadratic_roots (m c k : R) (s : complex) :
  0 < m -> is_pole m c k s -> In s (quadratic_roots m c k).
Proof.
  intros Hm Hs. destruct s as [x y]. apply is_pole_iff in Hs as [Hre Him].
  unfold quadratic_roots.
  destruct (Req_dec_T y 0) as [Hy|Hy].
  - subst y.
    assert (Hd : c * c - 4 * m * k = (2 * m * x + c) * (2 * m * x + c)) by nra.
    assert (Hd0 : 0 <= c * c - 4 * m * k) by (rewrite Hd; exact (Rle_0_sqr _)).
    replace (Rltb (c * c - 4 * m * k) 0) with false
      by (symmetry; apply Rltb_false; lra).
    destruct (Rle_lt_dec 0 (2 * m * x + c)) as [Hs|Hs].
    + left. f_equal.
      rewrite (sqrt_lem_1 _ (2 * m * x + c) Hd0 Hs (eq_sym Hd)).
      field. lra.
    + right; left. f_equal.
      assert (Hd' : (- (2 * m * x + c)) * (- (2 * m * x + c)) = c * c - 4 * m * k)
        by lra.
      rewrite (sqrt_lem_1 _ (- (2 * m * x + c)) Hd0 (Rlt_le _ _ (Ropp_0_gt_lt_contravar _ Hs)) Hd').
      field. lra.
  - assert (Hx : 2 * m * x + c = 0) by nra.
    assert (Hd : - (c * c - 4 * m * k) = (2 * m * y) * (2 * m * y)) by nra.
    assert (Hd0 : 0 < - (c * c - 4 * m * k)).
    { rewrite Hd. apply (Rsqr_pos_lt (2 * m * y)). apply Rmult_integral_contrapositive_currified; [lra | exact Hy]. }
    replace (Rltb (c * c - 4 * m * k) 0) with true
      by (symmetry; apply Rltb_true; lra).
    assert (Hre' : - c / (2 * m) = x) by (apply Rmult_eq_reg_l with (2 * m); [field_simplify; lra | lra]).
    destruct (Rle_lt_dec 0 (2 * m * y)) as [Hs|Hs].
    + left. rewrite Hre'. f_equal.
      rewrite (sqrt_lem_1 _ (2 * m * y) (Rlt_le _ _ Hd0) Hs (eq_sym Hd)).
      field. lra.
    + right; left. rewrite Hre'. f_equal.
      assert (Hd' : (- (2 * m * y)) * (- (2 * m * y)) = - (c * c - 4 * m * k)) by lra.
      rewrite (sqrt_lem_1 _ (- (2 * m * y)) (Rlt_le _ _ Hd0) (Rlt_le _ _ (Ropp_0_gt_lt_contravar _ Hs)) Hd').
      field. lra.
Qed.

(** C4.  For [m > 0], [c >= 0], [k > 0] (and a sample count numpy accepts,
    a library that answers the phase query), [calculate_laplace_transform]
    returns exactly two poles, a complex number is among them exactly when
    it is a root of [m s^2 + c s + k], and the zero set is empty. *)
Theorem analyze_two_poles_no_zeros (h : handler) m c k F0 omega max_freq (n : Z) :
  phase_total h -> (0 <= n)%Z ->
  0 < m -> 0 <= c -> 0 < k ->
  exists r,
    run h (calculate_laplace_transform m c k F0 omega max_freq n) = Ok r /\
    length (poles r) = 2%nat /\
    (forall s, In s (poles r) <-> is_pole m c k s) /\
    zeros r = [].
Proof.
  intros Hh Hn Hm _ _.
  assert (Hm0 : m <> 0) by lra.
  destruct (analyze_returns h m c k F0 omega max_freq n Hh Hm0 Hn)
    as [ws [ph [_ [_ Hrun]]]].
  eexists. split; [exact Hrun|]. simpl.
  rewrite np_roots_quadratic by exact Hm0. split; [|split].
  - apply quadratic_roots_length.
  - intros s. split.
    + apply quadratic_roots_are_poles, Hm0.
    + apply poles_are_quadratic_roots, Hm.
  - apply np_roots_constant.
Qed.

Lemma analyze_two_poles_no_zeros_witness :
  exists r,
    run frozen_handler (calculate_laplace_transform 1 2 10 10 5 100 1000) = Ok r /\
    length (poles r) = 2%nat /\
    (forall s, In s (poles r) <-> is_pole 1 2 10 s) /\
    zeros r = [].
Proof.
  apply (analyze_two_poles_no_zeros frozen_handler 1 2 10 10 5 100 1000
           frozen_handler_phase_total); [lia | lra | lra | lra].
Defined.

(** Real parts of the two roots. *)
Lemma quadratic_roots_real_parts (m c k : R) (p : complex) :
  0 < m -> 0 <= c -> 0 < k -> In p (quadratic_roots m c k) ->
  (c = 0 -> Re p = 0) /\ (0 < c -> Re p < 0).
Proof.
  intros Hm Hc Hk Hin. unfold quadratic_roots in Hin.
  assert (Hmk : 0 < m * k) by (apply Rmult_lt_0_compat; assumption).
  assert (H2m : 0 < / (2 * m)) by (apply Rinv_0_lt_compat; lra).
  destruct (Rltb (c * c - 4 * m * k) 0) eqn:Hd.
  - assert (Hre : Re p = - c / (2 * m))
      by (destruct Hin as [<-|[<-|[]]]; reflexivity).
    rewrite Hre. unfold Rdiv. split; intros H0; [subst c; ring | nra].
  - apply Rltb_false in Hd.
    assert (Hcpos : 0 < c) by nra.
    assert (Hq0 : 0 <= sqrt (c * c - 4 * m * k)) by apply sqrt_pos.
    assert (Hqc : sqrt (c * c - 4 * m * k) < c).
    { apply Rlt_le_trans with (sqrt (c * c)).
      - apply sqrt_lt_1_alt. split; lra.
      - rewrite sqrt_square by lra. lra. }
    split; [intros ->; lra|]. intros _.
    destruct Hin as [<-|[<-|[]]]; simpl; unfold Rdiv; nra.
Qed.

Lemma quadratic_roots_underdamped (m c k : R) (p : complex) :
  0 < m -> c * c <= 4 * m * k -> In p (quadratic_roots m c k) ->
  Re p = - c / (2 * m).
Proof.
  intros Hm Hd Hin. unfold quadratic_roots in Hin.
  destruct (Rltb (c * c - 4 * m * k) 0) eqn:Hb.
  - destruct Hin as [<-|[<-|[]]]; reflexivity.
  - apply Rltb_false in Hb.
    replace (c * c - 4 * m * k) with 0 in Hin by lra.
    rewrite sqrt_0 in Hin.
    destruct Hin as [<-|[<-|[]]]; simpl; f_equal; lra.
Qed.

Lemma quadratic_roots_real_sum (m c k : R) :
  m <> 0 -> fold_right Rplus 0 (np_real (quadratic_roots m c k)) = - c / m.
Proof.
  intros Hm. unfold quadratic_roots.
  destruct (Rltb (c * c - 4 * m * k) 0); simpl; field; exact Hm.
Qed.

(** C10.  For [m > 0], [c >= 0], [k > 0] no returned pole has a positive
    real part: the real parts add up to [-c/m], and both equal [-c/(2m)]
    when [c^2 <= 4 m k]; in particular both are zero when [c = 0].  Hence
    the classification is never UNSTABLE, and it is MARGINALLY STABLE when
    [c = 0]. *)
Theorem analyze_poles_left_half_plane (h : handler) m c k F0 omega max_freq (n : Z) :
  phase_total h -> (0 <= n)%Z ->
  0 < m -> 0 <= c -> 0 < k ->
  exists r,
    run h (calculate_laplace_transform m c k F0 omega max_freq n) = Ok r /\
    (forall p, In p (poles r) -> Re p <= 0) /\
    fold_right Rplus 0 (np_real (poles r)) = - c / m /\
    (c * c <= 4 * m * k -> forall p, In p (poles r) -> Re p = - c / (2 * m)) /\
    (c = 0 -> forall p, In p (poles r) -> Re p = 0) /\
    system_status (poles r) <> UNSTABLE /\
    (c = 0 -> system_status (poles r) = MARGINALLY_STABLE).
Proof.
  intros Hh Hn Hm Hc Hk.
  assert (Hm0 : m <> 0) by lra.
  destruct (analyze_returns h m c k F0 omega max_freq n Hh Hm0 Hn)
    as [ws [ph [_ [_ Hrun]]]].
  eexists. split; [exact Hrun|]. simpl.
  rewrite np_roots_quadratic by exact Hm0.
  pose proof (quadratic_roots_real_parts m c k) as Hre.
  assert (Hlen := quadratic_roots_length m c k).
  assert (Hmarg : c = 0 -> system_status (quadratic_roots m c k) = MARGINALLY_STABLE).
  { intros Hc0. apply system_status_marginal.
    destruct (quadratic_roots m c k) as [|p l] eqn:Hq; [discriminate|].
    assert (Hp0 : Re p = 0).
    { apply (Hre p Hm Hc Hk); [now left | exact Hc0]. }
    split.
    - apply Exists_cons_hd, Hp0.
    - intros Hall. inversion Hall as [|? ? Hp _]; subst. lra. }
  split; [|split; [|split; [|split; [|split]]]].
  - intros p Hp. destruct (Hre p Hm Hc Hk Hp) as [H0 Hneg].
    destruct Hc as [Hc|Hc]; [left; apply Hneg, Hc | right; apply H0; congruence].
  - apply quadratic_roots_real_sum, Hm0.
  - intros Hd p Hp. apply (quadratic_roots_underdamped m c k p Hm Hd Hp).
  - intros Hc0 p Hp. apply (Hre p Hm Hc Hk Hp), Hc0.
  - destruct Hc as [Hc|Hc].
    + assert (Hs : system_status (quadratic_roots m c k) = STABLE).
      { apply system_status_stable, Forall_forall. intros p Hp.
        apply (Hre p Hm (or_introl Hc) Hk Hp), Hc. }
      rewrite Hs. discriminate.
    + rewrite Hmarg by congruence. discriminate.
  - exact Hmarg.
Qed.

Lemma analyze_poles_left_half_plane_witness :
  exists r,
    run frozen_handler (calculate_laplace_transform 1 0 4 10 5 100 1000) = Ok r /\
    (forall p, In p (poles r) -> Re p <= 0) /\
    fold_right Rplus 0 (np_real (poles r)) = - 0 / 1 /\
    (0 * 0 <= 4 * 1 * 4 -> forall p, In p (poles r) -> Re p = - 0 / (2 * 1)) /\
    (0 = 0 -> forall p, In p (poles r) -> Re p = 0) /\
    system_status (poles r) <> UNSTABLE /\
    (0 = 0 -> system_status (poles r) = MARGINALLY_STABLE).
Proof.
  apply (analyze_poles_left_half_plane frozen_handler 1 0 4 10 5 100 1000
           frozen_handler_phase_total); [lia | lra | lra | lra].
Defined.

(** At [m = 1], [c = 3], [k = 2] (overdamped) the poles are [-1] and [-2],
    and [-1] is not [-c/(2m) = -3/2]. *)
Lemma overdamped_poles_differ :
  (0 < 1 /\ 0 <= 3 /\ 0 < 2) /\
  exists r,
    run frozen_handler (calculate_laplace_transform 1 3 2 10 5 100 1000) = Ok r /\
    In (Cx (-1) 0) (poles r) /\ In (Cx (-2) 0) (poles r) /\
    Re (Cx (-1) 0) <> - 3 / (2 * 1).
Proof.
  split; [lra|].
  destruct (analyze_returns frozen_handler 1 3 2 10 5 100 1000
              frozen_handler_phase_total ltac:(lra) ltac:(lia))
    as [ws [ph [_ [_ Hrun]]]].
  eexists. split; [exact Hrun|]. simpl.
  rewrite np_roots_quadratic by lra. unfold quadratic_roots.
  replace (3 * 3 - 4 * 1 * 2) with 1 by lra. rtest. rewrite sqrt_1.
  split; [|split].
  - left. f_equal. lra.
  - right; left. f_equal. lra.
  - lra.
Qed.

Lemma poles_on_one_vertical_line_fails : ~ poles_on_one_vertical_line.
Proof.
  intros H.
  destruct (analyze_returns frozen_handler 1 3 2 10 5 100 1000
              frozen_handler_phase_total ltac:(lra) ltac:(lia))
    as [ws [ph [_ [_ Hrun]]]].
  specialize (H frozen_handler 1 3 2 10 5 100 1000%Z _
                ltac:(lra) ltac:(lra) ltac:(lra) Hrun (Cx ((- 3 + 1) / (2 * 1)) 0)).
  simpl in H. rewrite np_roots_quadratic in H by lra. unfold quadratic_roots in H.
  replace (3 * 3 - 4 * 1 * 2) with 1 in H by lra.
  replace (Rltb 1 0) with false in H by (symmetry; apply Rltb_false; lra).
  rewrite sqrt_1 in H. specialize (H (or_introl eq_refl)). simpl in H. lra.
Qed.

(** ** The frequency sweep *)

Lemma ln10_pos : 0 < ln 10.
Proof. rewrite <- ln_1. apply ln_increasing; lra. Qed.

Lemma pow10_pos (x : R) : 0 < pow10 x.
Proof. apply exp_pos. Qed.

Lemma pow10_plus (x y : R) : pow10 (x + y) = pow10 x * pow10 y.
Proof. unfold pow10. rewrite Rmult_plus_distr_r. apply exp_plus. Qed.

Lemma pow10_increasing (x y : R) : x < y -> pow10 x < pow10 y.
Proof.
  intros H. apply exp_increasing. apply Rmult_lt_compat_r; [apply ln10_pos | exact H].
Qed.

Lemma pow10_log10 (x : R) : 0 < x -> pow10 (log10 x) = x.
Proof.
  intros Hx. unfold pow10, log10.
  replace (ln x / ln 10 * ln 10) with (ln x)
    by (field; apply Rgt_not_eq, ln10_pos).
  apply exp_ln, Hx.
Qed.

Lemma pow10_1 : pow10 1 = 10.
Proof. unfold pow10. rewrite Rmult_1_l. apply exp_ln. lra. Qed.

Lemma pow10_minus_2 : pow10 (-2) = 1 / 100.
Proof.
  assert (H : pow10 (-2) * (pow10 1 * pow10 1) = 1).
  { rewrite <- !pow10_plus. replace (-2 + (1 + 1)) with 0 by lra.
    unfold pow10. rewrite Rmult_0_l. apply exp_0. }
  rewrite pow10_1 in H. lra.
Qed.

Lemma log10_increasing (x y : R) : 0 < x -> x < y -> log10 x < log10 y.
Proof.
  intros Hx Hxy. unfold log10, Rdiv.
  apply Rmult_lt_compat_r; [apply Rinv_0_lt_compat, ln10_pos|].
  apply ln_increasing; assumption.
Qed.

Lemma log10_pow10 (x : R) : log10 (pow10 x) = x.
Proof.
  unfold log10, pow10. rewrite ln_exp. field. apply Rgt_not_eq, ln10_pos.
Qed.

Lemma log10_hundredth : log10 (1 / 100) = -2.
Proof. rewrite <- pow10_minus_2. apply log10_pow10. Qed.

Lemma sweep_length (max_freq : R) (n : Z) :
  (0 <= n)%Z -> length (sweep max_freq n) = Z.to_nat n.
Proof. intros Hn. unfold sweep. rewrite length_map. apply grid_length, Hn. Qed.

Lemma sweep_nth (max_freq : R) (n : Z) (i : nat) :
  (2 <= n)%Z -> (i < Z.to_nat n)%nat ->
  nth_error (sweep max_freq n) i =
  Some (Fin (pow10 (-2 + INR i * ((log10 max_freq - -2) / IZR (n - 1))))).
Proof.
  intros Hn Hi. unfold sweep. now rewrite nth_error_map, grid_nth.
Qed.

Lemma sweep_log_spaced (max_freq : R) (n : Z) :
  0 < max_freq -> (2 <= n)%Z -> log_spaced max_freq n (sweep max_freq n).
Proof.
  intros Hf Hn.
  assert (Hn1 : 0 < IZR (n - 1)) by (apply IZR_lt; lia).
  split.
  - apply sweep_length. lia.
  - rewrite sweep_nth by lia. cbn [INR]. do 2 f_equal.
    rewrite <- pow10_minus_2. f_equal. lra.
  - rewrite sweep_nth by lia. do 2 f_equal.
    rewrite <- (pow10_log10 max_freq Hf) at 2. f_equal.
    rewrite INR_IZR_INZ. replace (Z.of_nat (Z.to_nat n - 1)) with (n - 1)%Z by lia.
    field. lra.
  - intros i Hi.
    set (s := (log10 max_freq - -2) / IZR (n - 1)).
    exists (pow10 (-2 + INR i * s)), (pow10 (-2 + INR (S i) * s)).
    rewrite !sweep_nth by lia. fold s.
    split; [reflexivity|]. split; [reflexivity|].
    split; [apply pow10_pos|].
    assert (Hnext : -2 + INR (S i) * s = (-2 + INR i * s) + s)
      by (rewrite S_INR; lra).
    split; [|split; [|split]].
    + unfold sweep_ratio. fold s. rewrite Hnext. apply pow10_plus.
    + intros Hup. apply pow10_increasing. rewrite Hnext.
      assert (0 < s); [|lra]. unfold s. apply Rdiv_lt_0_compat; [|exact Hn1].
      pose proof (log10_increasing (1 / 100) max_freq ltac:(lra) Hup) as Hl.
      rewrite log10_hundredth in Hl. lra.
    + intros Hdown. apply pow10_increasing. rewrite Hnext.
      assert (s < 0); [|lra]. unfold s.
      pose proof (log10_increasing max_freq (1 / 100) Hf Hdown) as Hl.
      rewrite log10_hundredth in Hl.
      assert (0 < / IZR (n - 1)) by (apply Rinv_0_lt_compat, Hn1).
      unfold Rdiv. nra.
    + intros ->. rewrite Hnext. f_equal. unfold s.
      rewrite log10_hundredth. unfold Rdiv. ring.
Qed.

Lemma analyze_returns_sweep (h : handler) m c k F0 omega max_freq (n : Z) :
  phase_total h -> ~ (m = 0 /\ c = 0 /\ k = 0) -> 0 < max_freq -> (0 <= n)%Z ->
  exists sys ph,
    TransferFunction [1] [m; c; k] = Ok sys /\
    h _ (BodePhase sys (sweep max_freq n)) = Ok ph /\
    run h (calculate_laplace_transform m c k F0 omega max_freq n) =
      Ok (analysis m c k F0 omega sys (sweep max_freq n) ph).
Proof.
  intros Hh Hnz Hf Hn.
  destruct (TransferFunction_returns m c k Hnz) as [sys Hsys].
  destruct (Hh sys (sweep max_freq n)) as [ph [Hph _]].
  exists sys, ph. split; [exact Hsys|]. split; [exact Hph|].
  unfold calculate_laplace_transform.
  rewrite Hsys, np_logspace_sweep by assumption.
  simpl. now rewrite Hph.
Qed.

Lemma log_spaced_ascending (max_freq : R) (n : Z) (ws : list float64) :
  log_spaced max_freq n ws -> 1 / 100 < max_freq -> ascending ws.
Proof.
  intros Hlog Hup i x y Hx Hy.
  assert (Hi : (S i < Z.to_nat n)%nat).
  { rewrite <- (sweep_count _ _ _ Hlog). apply nth_error_Some. congruence. }
  destruct (sweep_steps _ _ _ Hlog i Hi) as [a [b [Ha [Hb [_ [_ [Hlt _]]]]]]].
  rewrite Ha in Hx. rewrite Hb in Hy. injection Hx as <-. injection Hy as <-.
  apply Hlt, Hup.
Qed.

(** C6.  For [max_freq > 0] and at least two samples, the frequency array
    has [num_points] samples, starts at [0.01], ends at [max_freq], and
    consecutive samples are in one fixed ratio; it is strictly increasing
    when [max_freq > 0.01] (strictly decreasing when [max_freq < 0.01],
    constant when [max_freq = 0.01]). *)
Theorem analyze_frequencies_log_spaced (h : handler) m c k F0 omega max_freq (n : Z) :
  phase_total h -> ~ (m = 0 /\ c = 0 /\ k = 0) ->
  0 < max_freq -> (2 <= n)%Z ->
  exists r,
    run h (calculate_laplace_transform m c k F0 omega max_freq n) = Ok r /\
    log_spaced max_freq n (frequencies r) /\
    (1 / 100 < max_freq -> ascending (frequencies r)).
Proof.
  intros Hh Hnz Hf Hn.
  destruct (analyze_returns_sweep h m c k F0 omega max_freq n Hh Hnz Hf ltac:(lia))
    as [sys [ph [_ [_ Hrun]]]].
  eexists. split; [exact Hrun|]. simpl.
  pose proof (sweep_log_spaced max_freq n Hf Hn) as Hlog.
  split; [exact Hlog | apply (log_spaced_ascending _ _ _ Hlog)].
Qed.

Lemma analyze_frequencies_log_spaced_witness :
  exists r,
    run frozen_handler (calculate_laplace_transform 1 2 10 10 5 100 1000) = Ok r /\
    log_spaced 100 1000 (frequencies r) /\
    (1 / 100 < 100 -> ascending (frequencies r)).
Proof.
  apply (analyze_frequencies_log_spaced frozen_handler 1 2 10 10 5 100 1000
           frozen_handler_phase_total); [lra | lra | lia].
Defined.

(** At [max_freq = 0.001] and two samples the array is [[0.01, 0.001]]. *)
Lemma sweep_below_hundredth_descends :
  (0 < 1 / 1000 /\ (2 <= 2)%Z) /\
  exists r,
    run frozen_handler (calculate_laplace_transform 1 2 10 10 5 (1 / 1000) 2) = Ok r /\
    frequencies r = [Fin (1 / 100); Fin (1 / 1000)] /\
    ~ ascending (frequencies r).
Proof.
  split; [split; [lra | lia]|].
  destruct (analyze_returns_sweep frozen_handler 1 2 10 10 5 (1 / 1000) 2
              frozen_handler_phase_total ltac:(lra) ltac:(lra) ltac:(lia))
    as [sys [ph [_ [_ Hrun]]]].
  eexists. split; [exact Hrun|]. cbn [frequencies analysis].
  destruct (sweep_log_spaced (1 / 1000) 2 ltac:(lra) ltac:(lia))
    as [Hlen Hfirst Hlast _].
  change (Z.to_nat 2) with 2%nat in Hlen, Hlast. cbn [Nat.sub] in Hlast.
  destruct (sweep (1 / 1000) 2) as [|a [|b [|? ?]]]; try discriminate.
  cbn [nth_error] in Hfirst, Hlast. injection Hfirst as ->. injection Hlast as ->.
  split; [reflexivity|].
  intros Hasc. specialize (Hasc 0%nat _ _ eq_refl eq_refl). simpl in Hasc. lra.
Qed.

Lemma sweep_always_increasing_fails : ~ sweep_always_increasing.
Proof.
  intros H.
  destruct (analyze_returns_sweep frozen_handler 1 2 10 10 5 (1 / 1000) 2
              frozen_handler_phase_total ltac:(lra) ltac:(lra) ltac:(lia))
    as [sys [ph [_ [_ Hrun]]]].
  specialize (H frozen_handler 1 2 10 10 5 (1 / 1000) 2%Z _
                ltac:(lra) ltac:(lia) Hrun).
  cbn [frequencies analysis] in H.
  destruct (sweep_log_spaced (1 / 1000) 2 ltac:(lra) ltac:(lia))
    as [Hlen Hfirst Hlast _].
  change (Z.to_nat 2) with 2%nat in Hlen, Hlast. cbn [Nat.sub] in Hlast.
  destruct (sweep (1 / 1000) 2) as [|a [|b [|? ?]]]; try discriminate.
  cbn [nth_error] in Hfirst, Hlast. injection Hfirst as ->. injection Hlast as ->.
  specialize (H 0%nat _ _ eq_refl eq_refl). simpl in H. lra.
Qed.

(** ** Magnitude *)

Lemma denominator_at_jw (m c k w : R) :
  denominator_at m c k (Cx 0 w) = Cx (k - m * w * w) (c * w).
Proof. unfold denominator_at, cadd, cmul; simpl. f_equal; ring. Qed.

Lemma polyval_normalized_den (m c k w : R) :
  m <> 0 ->
  polyval (tf_den (normalized m c k)) (Cx 0 w) =
  Cx ((k - m * w * w) / m) (c * w / m).
Proof.
  intros Hm. unfold polyval, cadd, cmul; simpl. f_equal; field; exact Hm.
Qed.

Lemma polyval_normalized_num (m c k w : R) :
  polyval (tf_num (normalized m c k)) (Cx 0 w) = Cx (1 / m) 0.
Proof. unfold polyval, cadd, cmul; simpl. f_equal; ring. Qed.

Lemma czero_iff (z : complex) : czero z = true <-> Re z = 0 /\ Im z = 0.
Proof.
  unfold czero. rewrite andb_true_iff, !Reqb_true. reflexivity.
Qed.

Lemma sum_squares_zero (a b : R) : a * a + b * b = 0 -> a = 0 /\ b = 0.
Proof.
  intros H. pose proof (Rle_0_sqr a) as Ha. pose proof (Rle_0_sqr b) as Hb.
  unfold Rsqr in Ha, Hb. split; apply Rsqr_0_uniq; unfold Rsqr; lra.
Qed.

(** scipy evaluates the normalised transfer function; over the reals that
    is the magnitude of the physical one. *)
Lemma bode_mag_normalized (m c k : R) (w : float64) :
  m <> 0 -> bode_mag (normalized m c k) w = homogeneous_db m c k w.
Proof.
  intros Hm. destruct w as [w| | |]; try reflexivity.
  unfold bode_mag, homogeneous_db.
  rewrite polyval_normalized_den by exact Hm.
  rewrite polyval_normalized_num, denominator_at_jw.
  set (a := k - m * w * w). set (b := c * w).
  assert (Hz : czero (Cx (a / m) (b / m)) = czero (Cx a b)).
  { apply eq_true_iff_eq. rewrite !czero_iff. simpl. split; intros [Ha Hb].
    - split.
      + replace a with (a / m * m) by (field; exact Hm). rewrite Ha. ring.
      + replace b with (b / m * m) by (field; exact Hm). rewrite Hb. ring.
    - subst a b. rewrite Ha, Hb. split; field; exact Hm. }
  rewrite Hz. destruct (czero (Cx a b)) eqn:Hd.
  - replace (czero (Cx (1 / m) 0)) with false.
    + simpl. unfold inf_signed. rtest. reflexivity.
    + symmetry. apply not_true_iff_false. rewrite czero_iff. simpl.
      intros [H1 _]. apply Hm.
      replace m with (/ (1 / m)) by (field; exact Hm). rewrite H1.
      apply Rinv_0.
  - assert (Hab : a * a + b * b <> 0).
    { intros H. apply sum_squares_zero in H as [Ha Hb].
      apply not_true_iff_false in Hd. apply Hd. apply czero_iff. now split. }
    assert (Hpos : 0 < a * a + b * b).
    { pose proof (Rle_0_sqr a) as Ha. pose proof (Rle_0_sqr b) as Hb.
      unfold Rsqr in Ha, Hb. lra. }
    assert (Habs : cabs (cdiv (Cx (1 / m) 0) (Cx (a / m) (b / m))) = / cabs (Cx a b)).
    { unfold cabs, cdiv; simpl. rewrite <- sqrt_inv. f_equal.
      field. split; [exact Hab | exact Hm]. }
    rewrite Habs.
    assert (Hinv : 0 < / cabs (Cx a b)).
    { apply Rinv_0_lt_compat. unfold cabs; simpl. apply sqrt_lt_R0, Hpos. }
    unfold np_log10. rtest. reflexivity.
Qed.

Lemma analysis_magnitude (m c k F0 omega : R) (ws ph : list float64) :
  m <> 0 ->
  magnitude (analysis m c k F0 omega (normalized m c k) ws ph) =
  map (fun w => fadd (homogeneous_db m c k w) (forcing_db F0 omega)) ws.
Proof.
  intros Hm. unfold analysis; simpl. rewrite map_map.
  apply map_ext. intros w. now rewrite bode_mag_normalized.
Qed.

Lemma sweep_finite_positive (max_freq : R) (n : Z) (w : float64) :
  In w (sweep max_freq n) -> exists x, w = Fin x /\ 0 < x.
Proof.
  unfold sweep. intros Hin. apply in_map_iff in Hin as [x [<- _]].
  eexists. split; [reflexivity | apply pow10_pos].
Qed.

(** C5.  For valid input the call returns: the frequencies are the
    [num_points] samples of the sweep from 0.01 to [max_freq], all finite
    and positive; the magnitude has one sample for each of them, the
    homogeneous Bode magnitude in decibels of [H(s) = 1/(m s^2 + c s + k)]
    at that frequency plus the one constant [20 log10 (F0 omega)]; and the
    returned phase is the phase the library computed for the homogeneous
    system over the same sweep. *)
Theorem analyze_forced_magnitude (h : handler) m c k F0 omega max_freq (n : Z) :
  phase_total h ->
  0 < m -> 0 <= c -> 0 < k -> 0 <= F0 -> 0 < omega -> 0 < max_freq -> (0 <= n)%Z ->
  exists r ph,
    run h (calculate_laplace_transform m c k F0 omega max_freq n) = Ok r /\
    frequencies r = sweep max_freq n /\
    length (frequencies r) = Z.to_nat n /\
    length (magnitude r) = Z.to_nat n /\
    h _ (BodePhase (normalized m c k) (sweep max_freq n)) = Ok ph /\
    phase r = ph /\
    magnitude r =
      map (fun w => fadd (homogeneous_db m c k w) (forcing_db F0 omega))
          (sweep max_freq n) /\
    (forall i, (i < Z.to_nat n)%nat ->
       exists w,
         0 < w /\
         nth_error (frequencies r) i = Some (Fin w) /\
         nth_error (magnitude r) i =
           Some (fadd (homogeneous_db m c k (Fin w)) (forcing_db F0 omega))).
Proof.
  intros Hh Hm _ _ _ _ Hf Hn.
  assert (Hm0 : m <> 0) by lra.
  destruct (analyze_returns_sweep h m c k F0 omega max_freq n Hh
              ltac:(intros [? _]; lra) Hf Hn) as [sys [ph [Hsys [Hph Hrun]]]].
  rewrite TransferFunction_normalized in Hsys by exact Hm0. injection Hsys as <-.
  eexists. exists ph. split; [exact Hrun|].
  rewrite analysis_magnitude by exact Hm0. cbn [frequencies phase analysis].
  split; [reflexivity|]. split; [apply sweep_length, Hn|].
  split; [rewrite length_map; apply sweep_length, Hn|].
  split; [exact Hph|]. split; [reflexivity|]. split; [reflexivity|].
  intros i Hi. rewrite <- (sweep_length max_freq n Hn) in Hi.
  destruct (nth_error (sweep max_freq n) i) as [w|] eqn:Hw.
  - destruct (sweep_finite_positive _ _ _ (nth_error_In _ _ Hw)) as [x [-> Hx]].
    exists x. split; [exact Hx|]. split; [reflexivity|].
    rewrite nth_error_map, Hw. reflexivity.
  - apply nth_error_None in Hw. lia.
Qed.

Lemma analyze_forced_magnitude_witness :
  exists r ph,
    run frozen_handler (calculate_laplace_transform 1 2 10 10 5 100 1000) = Ok r /\
    frequencies r = sweep 100 1000 /\
    length (frequencies r) = Z.to_nat 1000 /\
    length (magnitude r) = Z.to_nat 1000 /\
    frozen_handler _ (BodePhase (normalized 1 2 10) (sweep 100 1000)) = Ok ph /\
    phase r = ph /\
    magnitude r =
      map (fun w => fadd (homogeneous_db 1 2 10 w) (forcing_db 10 5))
          (sweep 100 1000) /\
    (forall i, (i < Z.to_nat 1000)%nat ->
       exists w,
         0 < w /\
         nth_error (frequencies r) i = Some (Fin w) /\
         nth_error (magnitude r) i =
           Some (fadd (homogeneous_db 1 2 10 (Fin w)) (forcing_db 10 5))).
Proof.
  apply (analyze_forced_magnitude frozen_handler 1 2 10 10 5 100 1000
           frozen_handler_phase_total); try lra; lia.
Defined.

(** ** Finite and non-finite samples *)

Lemma homogeneous_db_damped (m c k x : R) :
  0 < c -> 0 < x -> exists y, homogeneous_db m c k (Fin x) = Fin y.
Proof.
  intros Hc Hx. unfold homogeneous_db. rewrite denominator_at_jw.
  replace (czero (Cx (k - m * x * x) (c * x))) with false.
  - eexists. reflexivity.
  - symmetry. apply not_true_iff_false. rewrite czero_iff. simpl.
    intros [_ H]. assert (0 < c * x) by (apply Rmult_lt_0_compat; assumption). lra.
Qed.

Lemma forcing_db_positive (F0 omega : R) :
  0 < F0 -> 0 < omega -> forcing_db F0 omega = Fin (20 * log10 (F0 * omega)).
Proof.
  intros HF Hw. unfold forcing_db, np_log10.
  assert (0 < F0 * omega) by (apply Rmult_lt_0_compat; assumption).
  rtest. reflexivity.
Qed.

Lemma forcing_db_zero (omega : R) : forcing_db 0 omega = NInf.
Proof.
  unfold forcing_db, np_log10. replace (0 * omega) with 0 by ring.
  rtest. simpl. unfold inf_signed. rtest. reflexivity.
Qed.




Lemma damped_unforced_returns (h : handler) :
  phase_total h ->
  exists r,
    run h (calculate_laplace_transform 1 2 10 0 5 100 1000) = Ok r /\
    length (magnitude r) = 1000%nat /\
    Forall (fun x => x = NInf) (magnitude r).
Proof.
  intros Hh.
  destruct (analyze_returns_sweep h 1 2 10 0 5 100 1000 Hh
              ltac:(intros [? _]; lra) ltac:(lra) ltac:(lia))
    as [sys [ph [Hsys [Hph Hrun]]]].
  rewrite TransferFunction_normalized in Hsys by lra. injection Hsys as <-.
  eexists. split; [exact Hrun|].
  rewrite analysis_magnitude by lra. split.
  - rewrite length_map. apply (sweep_length 100 1000). lia.
  - apply Forall_forall. intros y Hy.
    apply in_map_iff in Hy as [w [<- Hin]].
    destruct (sweep_finite_positive _ _ _ Hin) as [x [-> Hx]].
    destruct (homogeneous_db_damped 1 2 10 x ltac:(lra) Hx) as [d ->].
    now rewrite forcing_db_zero.
Qed.


Lemma analyze_never_returns_nonfinite_fails : ~ analyze_never_returns_nonfinite.
Proof.
  intros H.
  destruct (damped_unforced_returns frozen_handler frozen_handler_phase_total)
    as [r [Hrun [Hlen Hall]]].
  specialize (H frozen_handler 1 2 10 0 5 100 1000%Z r
                ltac:(lra) ltac:(lra) ltac:(lra) ltac:(lra) ltac:(lra) ltac:(lra)
                ltac:(lia) Hrun).
  destruct (magnitude r) as [|x l]; [discriminate|].
  inversion Hall as [|? ? Hx _]; subst. inversion H as [|? ? Hx' _]; subst.
  exact Hx'.
Qed.

Lemma pow10_0 : pow10 0 = 1.
Proof. unfold pow10. rewrite Rmult_0_l. apply exp_0. Qed.

Lemma log10_100 : log10 100 = 2.
Proof.
  replace 100 with (pow10 2); [apply log10_pow10|].
  replace 2 with (1 + 1) by lra. rewrite pow10_plus, pow10_1. lra.
Qed.

(** Without damping a second kind of non-finite sample occurs, for a
    positive forcing amplitude too: with [m = k = 1], [c = 0] and the
    three-point sweep [0.01, 1, 100], the middle sample sits on the
    resonance, where the denominator vanishes, and its magnitude is [inf]. *)
Lemma undamped_resonance_is_infinite :
  exists r,
    run frozen_handler (calculate_laplace_transform 1 0 1 1 1 100 3) = Ok r /\
    nth_error (frequencies r) 1 = Some (Fin 1) /\
    nth_error (magnitude r) 1 = Some PInf.
Proof.
  destruct (analyze_returns_sweep frozen_handler 1 0 1 1 1 100 3
              frozen_handler_phase_total
              ltac:(intros [? _]; lra) ltac:(lra) ltac:(lia))
    as [sys [ph [Hsys [Hph Hrun]]]].
  rewrite TransferFunction_normalized in Hsys by lra. injection Hsys as <-.
  eexists. split; [exact Hrun|].
  rewrite analysis_magnitude by lra. cbn [frequencies analysis].
  assert (Hmid : nth_error (sweep 100 3) 1 = Some (Fin 1)).
  { rewrite sweep_nth by lia. do 2 f_equal. rewrite <- pow10_0. f_equal.
    rewrite log10_100. simpl. lra. }
  split; [exact Hmid|].
  rewrite nth_error_map, Hmid. cbn [option_map]. f_equal.
  unfold homogeneous_db. rewrite denominator_at_jw.
  replace (czero (Cx (1 - 1 * 1 * 1) (0 * 1))) with true
    by (symmetry; apply czero_iff; simpl; split; lra).
  rewrite forcing_db_positive by lra. reflexivity.
Qed.

(** * Further properties *)

(** ** The right-hand side of the equation of motion *)

(** X1.  For a non-zero mass and a finite state [(x, v)] the right-hand side
    returns the pair (velocity, acceleration), and the acceleration [a]
    satisfies the equation of motion [m a + c v + k x = F0 sin (omega t)]. *)
Theorem ode_equation_of_motion (t x v m c k F0 omega : R) :
  m <> 0 ->
  exists a,
    damped_oscillator_ode (Fin t) [Fin x; Fin v]
      (Fin m) (Fin c) (Fin k) (Fin F0) (Fin omega) = Ok [Fin v; Fin a] /\
    m * a + c * v + k * x = F0 * sin (omega * t).
Proof.
  intros Hm. unfold damped_oscillator_ode. simpl.
  replace (Reqb m 0) with false by (symmetry; now apply Reqb_false).
  eexists. split; [reflexivity|]. field. exact Hm.
Qed.

Lemma ode_equation_of_motion_witness :
  exists a,
    damped_oscillator_ode (Fin 0) [Fin 1; Fin 0]
      (Fin 1) (Fin 2) (Fin 10) (Fin 10) (Fin 5) = Ok [Fin 0; Fin a] /\
    1 * a + 2 * 0 + 10 * 1 = 10 * sin (5 * 0).
Proof.
  apply (ode_equation_of_motion 0 1 0 1 2 10 10 5). lra.
Defined.

(** X2.  With a zero mass the right-hand side raises nothing: it returns the
    velocity and an acceleration that is not a finite number ([inf], [-inf]
    or [nan], as the sign of the net force decides). *)
Theorem ode_zero_mass_not_finite (t x v c k F0 omega : R) :
  exists d,
    damped_oscillator_ode (Fin t) [Fin x; Fin v]
      (Fin 0) (Fin c) (Fin k) (Fin F0) (Fin omega) = Ok [Fin v; d] /\
    ~ is_finite d /\
    d = inf_signed (F0 * sin (omega * t) + - (c * v) + - (k * x)).
Proof.
  unfold damped_oscillator_ode. simpl. rtest.
  eexists. split; [reflexivity|]. split; [|reflexivity].
  unfold inf_signed.
  destruct (Rltb 0 _); [intros []|]. destruct (Rltb _ 0); intros [].
Qed.

(** X3.  Power balance.  Along the returned direction [(dx, dv)] the energy
    [m v^2 / 2 + k x^2 / 2] changes at the rate
    [k x dx + m v dv = v F0 sin (omega t) - c v^2]; without forcing and
    with [c >= 0] it never grows, and with [c = 0] it is conserved. *)
Theorem ode_power_balance (t x v m c k F0 omega : R) :
  m <> 0 ->
  exists dx dv,
    damped_oscillator_ode (Fin t) [Fin x; Fin v]
      (Fin m) (Fin c) (Fin k) (Fin F0) (Fin omega) = Ok [Fin dx; Fin dv] /\
    k * x * dx + m * v * dv = v * (F0 * sin (omega * t)) - c * (v * v) /\
    (F0 = 0 -> 0 <= c -> k * x * dx + m * v * dv <= 0) /\
    (F0 = 0 -> c = 0 -> k * x * dx + m * v * dv = 0).
Proof.
  intros Hm.
  exists v, ((F0 * sin (omega * t) + - (c * v) + - (k * x)) / m).
  split.
  { unfold damped_oscillator_ode. simpl.
    replace (Reqb m 0) with false by (symmetry; now apply Reqb_false).
    reflexivity. }
  set (a := (F0 * sin (omega * t) + - (c * v) + - (k * x)) / m).
  assert (Ha : m * a + c * v + k * x = F0 * sin (omega * t))
    by (unfold a; field; exact Hm).
  assert (Hbal : k * x * v + m * v * a = v * (F0 * sin (omega * t)) - c * (v * v)).
  { rewrite <- Ha. ring. }
  split; [exact Hbal|]. split.
  - intros -> Hc. rewrite Hbal. pose proof (Rle_0_sqr v) as Hv. unfold Rsqr in Hv. nra.
  - intros -> ->. rewrite Hbal. ring.
Qed.

Lemma ode_power_balance_witness :
  exists dx dv,
    damped_oscillator_ode (Fin 0) [Fin 1; Fin 3]
      (Fin 1) (Fin 2) (Fin 10) (Fin 0) (Fin 5) = Ok [Fin dx; Fin dv] /\
    10 * 1 * dx + 1 * 3 * dv = 3 * (0 * sin (5 * 0)) - 2 * (3 * 3) /\
    (0 = 0 -> 0 <= 2 -> 10 * 1 * dx + 1 * 3 * dv <= 0) /\
    (0 = 0 -> 2 = 0 -> 10 * 1 * dx + 1 * 3 * dv = 0).
Proof.
  apply (ode_power_balance 0 1 3 1 2 10 0 5). lra.
Defined.

(** ** Edge behaviour of solve *)

(** X4.  A negative sample count makes both entry points raise numpy's
    [ValueError]: [solve_damped_oscillator] before it calls the integrator,
    [calculate_laplace_transform] before it asks for the frequency
    response, whatever the other arguments are. *)
Theorem negative_num_points_raises m c k F0 omega x0 v0 t_max max_freq (n : Z) :
  (n < 0)%Z ->
  solve_damped_oscillator m c k F0 omega x0 v0 t_max n = Raise ValueError /\
  calculate_laplace_transform m c k F0 omega max_freq n = Raise ValueError.
Proof.
  intros Hn. split; [apply solve_negative_num_points, Hn|].
  unfold calculate_laplace_transform.
  destruct (TransferFunction [1] [m; c; k]) as [sys|e] eqn:Hsys.
  - simpl. rewrite np_logspace_negative by exact Hn. reflexivity.
  - unfold TransferFunction in Hsys.
    destruct (forallb _ [m; c; k]); [|discriminate].
    injection Hsys as <-. reflexivity.
Qed.

Lemma negative_num_points_raises_witness :
  solve_damped_oscillator 1 2 10 10 5 1 0 20 (-1) = Raise ValueError /\
  calculate_laplace_transform 1 2 10 10 5 100 (-1) = Raise ValueError.
Proof.
  apply (negative_num_points_raises 1 2 10 10 5 1 0 20 100 (-1)). lia.
Defined.

(** X5.  With [num_points = 1] the single output time asked of the
    integrator is the initial time 0, not [t_max].  With [num_points = 0]
    no output time is asked for, and when the integrator then answers
    without any row, as [solve_ivp] does when it produced no sample, the
    indexing [sol.y[0]] raises [IndexError]. *)
Theorem solve_few_samples (h : handler) m c k F0 omega x0 v0 t_max (sol : OdeResult) :
  (solve_damped_oscillator m c k F0 omega x0 v0 t_max 1 =
     Call (SolveIvp (ivp_request m c k F0 omega x0 v0 t_max [Fin 0]))
          solve_continuation) /\
  (solve_damped_oscillator m c k F0 omega x0 v0 t_max 0 =
     Call (SolveIvp (ivp_request m c k F0 omega x0 v0 t_max []))
          solve_continuation) /\
  (h _ (SolveIvp (ivp_request m c k F0 omega x0 v0 t_max [])) = Ok sol ->
   sol_y sol = [] ->
   run h (solve_damped_oscillator m c k F0 omega x0 v0 t_max 0) = Err IndexError).
Proof.
  assert (H1 : map Fin (grid 0 t_max 1) = [Fin 0]).
  { unfold grid. simpl. do 2 f_equal. lra. }
  assert (H0 : map Fin (grid 0 t_max 0) = []) by reflexivity.
  split; [|split].
  - rewrite solve_unfold by lia. now rewrite H1.
  - rewrite solve_unfold by lia. now rewrite H0.
  - intros Hsol Hy. rewrite solve_unfold by lia. rewrite H0. cbn [run].
    rewrite Hsol, run_solve_continuation.
    unfold project_solution, index. now rewrite Hy.
Qed.

Lemma solve_few_samples_witness :
  run failed_handler (solve_damped_oscillator 1 2 10 10 5 1 0 20 0) = Err IndexError.
Proof.
  apply (proj2 (proj2 (solve_few_samples failed_handler 1 2 10 10 5 1 0 20
                         {| sol_t := []; sol_y := []; sol_status := -1 |})));
    reflexivity.
Defined.

(** ** Edge behaviour of analyze *)

(** X7.  Whatever [max_freq] is (zero and negative values included), for
    coefficients that are not all zero and a non-negative sample count the
    call returns, and the frequency, magnitude and phase arrays all have
    exactly [num_points] samples. *)
Theorem analyze_array_lengths (h : handler) m c k F0 omega max_freq (n : Z) :
  phase_total h -> ~ (m = 0 /\ c = 0 /\ k = 0) -> (0 <= n)%Z ->
  exists r,
    run h (calculate_laplace_transform m c k F0 omega max_freq n) = Ok r /\
    length (frequencies r) = Z.to_nat n /\
    length (magnitude r) = Z.to_nat n /\
    length (phase r) = Z.to_nat n.
Proof.
  intros Hh Hnz Hn.
  destruct (analyze_unfold_general m c k F0 omega max_freq n Hnz Hn)
    as [sys [ws [Hws Hp]]].
  destruct (Hh sys ws) as [ph [Hph Hphlen]].
  pose proof (np_logspace_length _ _ _ _ Hws) as Hlen.
  exists (analysis m c k F0 omega sys ws ph). split; [|split; [|split]].
  - rewrite Hp. simpl. now rewrite Hph.
  - exact Hlen.
  - simpl. now rewrite !length_map.
  - simpl. congruence.
Qed.

Lemma analyze_array_lengths_witness :
  exists r,
    run frozen_handler (calculate_laplace_transform 1 2 10 10 5 (-3) 7) = Ok r /\
    length (frequencies r) = 7%nat /\
    length (magnitude r) = 7%nat /\
    length (phase r) = 7%nat.
Proof.
  apply (analyze_array_lengths frozen_handler 1 2 10 10 5 (-3) 7
           frozen_handler_phase_total); [lra | lia].
Defined.

Lemma np_logspace_first_nan (max_freq : R) (n : Z) (ws : list float64) :
  max_freq <= 0 -> (2 <= n)%Z ->
  np_logspace (Fin (-2)) (np_log10 (Fin max_freq)) n = Ok ws ->
  nth_error ws 0 = Some NaN.
Proof.
  intros Hf Hn. set (stop := np_log10 (Fin max_freq)).
  assert (Hstop : stop = NInf \/ stop = NaN).
  { unfold stop, np_log10. replace (Rltb 0 max_freq) with false
      by (symmetry; apply Rltb_false; lra).
    destruct (Reqb max_freq 0); [now left | now right]. }
  unfold np_logspace, np_linspace.
  replace (n <? 0)%Z with false by (symmetry; apply Z.ltb_ge; lia).
  replace (0 <? n - 1)%Z with true by (symmetry; apply Z.ltb_lt; lia).
  replace (1 <? n)%Z with true by (symmetry; apply Z.ltb_lt; lia).
  cbn [rbind]. intros H.
  apply (f_equal (fun r => match r with Ok l => nth_error l 0 | Err _ => None end))
    in H.
  cbn beta iota in H. rewrite <- H. clear H.
  rewrite nth_error_map, set_last_nth_front
    by (rewrite length_map, arange_length; lia).
  rewrite nth_error_map, arange_nth by lia. cbn [option_map Z.of_nat].
  assert (Hd : Rltb (IZR (n - 1)) 0 = false)
    by (apply Rltb_false; apply IZR_le; lia).
  destruct Hstop as [-> | ->]; unfold of_Z; simpl.
  - rewrite Hd. simpl. unfold inf_signed. rtest. reflexivity.
  - reflexivity.
Qed.

(** X8.  A zero or negative [max_freq] is not rejected: with at least two
    samples the call returns, and the first frequency sample is [nan]
    (numpy's [log10] of a non-positive number is [-inf] or [nan], and the
    first grid point is [0 * step]). *)
Theorem analyze_nonpositive_max_freq (h : handler) m c k F0 omega max_freq (n : Z) :
  phase_total h -> ~ (m = 0 /\ c = 0 /\ k = 0) ->
  max_freq <= 0 -> (2 <= n)%Z ->
  exists r,
    run h (calculate_laplace_transform m c k F0 omega max_freq n) = Ok r /\
    nth_error (frequencies r) 0 = Some NaN.
Proof.
  intros Hh Hnz Hf Hn.
  destruct (analyze_unfold_general m c k F0 omega max_freq n Hnz ltac:(lia))
    as [sys [ws [Hws Hp]]].
  destruct (Hh sys ws) as [ph [Hph _]].
  exists (analysis m c k F0 omega sys ws ph). split.
  - rewrite Hp. simpl. now rewrite Hph.
  - simpl. apply (np_logspace_first_nan max_freq n ws Hf Hn Hws).
Qed.

Lemma analyze_nonpositive_max_freq_witness :
  exists r,
    run frozen_handler (calculate_laplace_transform 1 2 10 10 5 0 1000) = Ok r /\
    nth_error (frequencies r) 0 = Some NaN.
Proof.
  apply (analyze_nonpositive_max_freq frozen_handler 1 2 10 10 5 0 1000
           frozen_handler_phase_total); [lra | lra | lia].
Defined.

Lemma log10_mult (x y : R) : 0 < x -> 0 < y -> log10 (x * y) = log10 x + log10 y.
Proof.
  intros Hx Hy. unfold log10. rewrite ln_mult by assumption. field.
  apply Rgt_not_eq, ln10_pos.
Qed.

(** X9.  For valid input with positive damping and a positive forcing
    amplitude, the magnitude returned at a sample frequency [w] is the
    decibel value of [F0 omega / |m (jw)^2 + c (jw) + k|]:
    [20 log10 (F0 omega / sqrt ((k - m w^2)^2 + (c w)^2))]. *)
Theorem analyze_magnitude_closed_form
    (h : handler) m c k F0 omega max_freq (n : Z) :
  phase_total h ->
  0 < m -> 0 < c -> 0 < k -> 0 < F0 -> 0 < omega -> 0 < max_freq -> (0 <= n)%Z ->
  exists r,
    run h (calculate_laplace_transform m c k F0 omega max_freq n) = Ok r /\
    forall i w, nth_error (frequencies r) i = Some (Fin w) ->
      nth_error (magnitude r) i =
      Some (Fin (20 * log10 (F0 * omega /
                             sqrt ((k - m * w * w) * (k - m * w * w)
                                   + (c * w) * (c * w))))).
Proof.
  intros Hh Hm Hc Hk HF Hw Hf Hn.
  assert (Hm0 : m <> 0) by lra.
  destruct (analyze_returns_sweep h m c k F0 omega max_freq n Hh
              ltac:(intros [? _]; lra) Hf Hn) as [sys [ph [Hsys [Hph Hrun]]]].
  rewrite TransferFunction_normalized in Hsys by exact Hm0. injection Hsys as <-.
  eexists. split; [exact Hrun|].
  rewrite analysis_magnitude by exact Hm0. cbn [frequencies analysis].
  intros i w Hi. rewrite nth_error_map, Hi. cbn [option_map]. f_equal.
  destruct (sweep_finite_positive max_freq n (Fin w) (nth_error_In _ _ Hi))
    as [w' [Hw' Hwpos]]. injection Hw' as <-.
  unfold homogeneous_db. rewrite denominator_at_jw.
  set (a := k - m * w * w). set (b := c * w).
  assert (Hb : 0 < b) by (apply Rmult_lt_0_compat; assumption).
  replace (czero (Cx a b)) with false
    by (symmetry; apply not_true_iff_false; rewrite czero_iff; simpl;
        intros [_ H]; lra).
  rewrite forcing_db_positive by assumption. simpl. f_equal.
  assert (Hs : 0 < sqrt (a * a + b * b)).
  { apply sqrt_lt_R0. pose proof (Rle_0_sqr a) as Ha. unfold Rsqr in Ha. nra. }
  unfold cabs; simpl. unfold Rdiv.
  rewrite (log10_mult (F0 * omega)).
  - ring.
  - apply Rmult_lt_0_compat; assumption.
  - apply Rinv_0_lt_compat, Hs.
Qed.

Lemma analyze_magnitude_closed_form_witness :
  exists r,
    run frozen_handler (calculate_laplace_transform 1 2 10 10 5 100 1000) = Ok r /\
    forall i w, nth_error (frequencies r) i = Some (Fin w) ->
      nth_error (magnitude r) i =
      Some (Fin (20 * log10 (10 * 5 /
                             sqrt ((10 - 1 * w * w) * (10 - 1 * w * w)
                                   + (2 * w) * (2 * w))))).
Proof.
  apply (analyze_magnitude_closed_form frozen_handler 1 2 10 10 5 100 1000
           frozen_handler_phase_total); try lra; lia.
Defined.

(** ** Classification and poles *)

Lemma system_status_permutation_stable (ps qs : list complex) :
  Permutation ps qs -> system_status ps = STABLE -> system_status qs = STABLE.
Proof.
  intros Hp Hs. apply system_status_stable.
  apply (Permutation_Forall Hp). now apply system_status_stable.
Qed.

Lemma system_status_permutation_marginal (ps qs : list complex) :
  Permutation ps qs ->
  system_status ps = MARGINALLY_STABLE -> system_status qs = MARGINALLY_STABLE.
Proof.
  intros Hp Hs. apply system_status_marginal in Hs as [Hz Hn].
  apply system_status_marginal. split.
  - apply (Permutation_Exists Hp Hz).
  - intros Hall. apply Hn. apply (Permutation_Forall (Permutation_sym Hp) Hall).
Qed.

(** X10.  The classification does not depend on the order in which
    [np.roots] lists the poles: two pole arrays that are permutations of one
    another get the same status. *)
Theorem system_status_permutation (ps qs : list complex) :
  Permutation ps qs -> system_status ps = system_status qs.
Proof.
  intros Hp. destruct (system_status ps) eqn:Hs.
  - symmetry. now apply (system_status_permutation_stable ps qs).
  - symmetry. now apply (system_status_permutation_marginal ps qs).
  - destruct (system_status qs) eqn:Hq; [| |reflexivity].
    + apply (system_status_permutation_stable qs ps (Permutation_sym Hp)) in Hq.
      congruence.
    + apply (system_status_permutation_marginal qs ps (Permutation_sym Hp)) in Hq.
      congruence.
Qed.

Lemma system_status_permutation_witness :
  system_status [Cx (-1) 0; Cx (-2) 0] = system_status [Cx (-2) 0; Cx (-1) 0].
Proof.
  apply (system_status_permutation [Cx (-1) 0; Cx (-2) 0] [Cx (-2) 0; Cx (-1) 0]).
  apply perm_swap.
Defined.

Lemma quadratic_roots_vieta (m c k : R) :
  m <> 0 ->
  exists p1 p2,
    quadratic_roots m c k = [p1; p2] /\
    cadd p1 p2 = Cx (- c / m) 0 /\
    cmul p1 p2 = Cx (k / m) 0.
Proof.
  intros Hm. unfold quadratic_roots.
  destruct (Rltb (c * c - 4 * m * k) 0) eqn:Hd.
  - apply Rltb_true in Hd.
    assert (Hq : sqrt (- (c * c - 4 * m * k)) * sqrt (- (c * c - 4 * m * k))
                 = - (c * c - 4 * m * k)) by (apply sqrt_sqrt; lra).
    set (q := sqrt (- (c * c - 4 * m * k))) in *.
    do 2 eexists. split; [reflexivity|]. unfold cadd, cmul; simpl.
    split; f_equal; try (field; exact Hm).
    replace (- c / (2 * m) * (- c / (2 * m)) - q / (2 * m) * (- q / (2 * m)))
      with ((c * c + q * q) / (4 * m * m)) by (field; exact Hm).
    rewrite Hq. field. exact Hm.
  - apply Rltb_false in Hd.
    assert (Hq : sqrt (c * c - 4 * m * k) * sqrt (c * c - 4 * m * k)
                 = c * c - 4 * m * k) by (apply sqrt_sqrt; lra).
    set (q := sqrt (c * c - 4 * m * k)) in *.
    do 2 eexists. split; [reflexivity|]. unfold cadd, cmul; simpl.
    split; f_equal; try (field; exact Hm).
    replace ((- c + q) / (2 * m) * ((- c - q) / (2 * m)) - 0 * 0)
      with ((c * c - q * q) / (4 * m * m)) by (field; exact Hm).
    rewrite Hq. field. exact Hm.
Qed.

(** X11.  For a non-zero mass the two returned poles add up to [-c/m] and
    multiply to [k/m] (as complex numbers), whatever the signs of the
    coefficients. *)
Theorem analyze_poles_sum_and_product
    (h : handler) m c k F0 omega max_freq (n : Z) :
  phase_total h -> m <> 0 -> (0 <= n)%Z ->
  exists r p1 p2,
    run h (calculate_laplace_transform m c k F0 omega max_freq n) = Ok r /\
    poles r = [p1; p2] /\
    cadd p1 p2 = Cx (- c / m) 0 /\
    cmul p1 p2 = Cx (k / m) 0.
Proof.
  intros Hh Hm Hn.
  destruct (analyze_returns h m c k F0 omega max_freq n Hh Hm Hn)
    as [ws [ph [_ [_ Hrun]]]].
  destruct (quadratic_roots_vieta m c k Hm) as [p1 [p2 [Hq [Hs Hp]]]].
  eexists. exists p1, p2. split; [exact Hrun|]. simpl.
  rewrite np_roots_quadratic by exact Hm. now repeat split.
Qed.

Lemma analyze_poles_sum_and_product_witness :
  exists r p1 p2,
    run frozen_handler (calculate_laplace_transform (-1) 3 2 10 5 100 1000) = Ok r /\
    poles r = [p1; p2] /\
    cadd p1 p2 = Cx (- 3 / -1) 0 /\
    cmul p1 p2 = Cx (2 / -1) 0.
Proof.
  apply (analyze_poles_sum_and_product frozen_handler (-1) 3 2 10 5 100 1000
           frozen_handler_phase_total); [lra | lia].
Defined.

(** *** Natural frequency and damping ratio *)

Lemma sqrt_mk_pos (m k : R) : 0 < m -> 0 < k -> 0 < sqrt (m * k).
Proof. intros Hm Hk. apply sqrt_lt_R0, Rmult_lt_0_compat; assumption. Qed.

Lemma system_characteristics_values (m c k : R) :
  0 < m -> 0 < k ->
  system_characteristics m c k =
  Value (Fin (sqrt (k / m)), Fin (c / (2 * sqrt (m * k)))).
Proof.
  intros Hm Hk. unfold system_characteristics, py_div.
  replace (Reqb m 0) with false by (symmetry; apply Reqb_false; lra).
  pose proof (sqrt_mk_pos m k Hm Hk) as Hs.
  assert (Hkm : 0 < k / m) by (apply Rdiv_lt_0_compat; assumption).
  assert (Hmk : 0 < m * k) by (apply Rmult_lt_0_compat; assumption).
  simpl. unfold fsqrt. rtest. simpl. rtest. reflexivity.
Qed.

Lemma zeta_below_one (m c k : R) :
  0 < m -> 0 < k -> 0 <= c ->
  (c / (2 * sqrt (m * k)) < 1 <-> c * c < 4 * m * k).
Proof.
  intros Hm Hk Hc.
  pose proof (sqrt_mk_pos m k Hm Hk) as Hs.
  assert (Hsq : sqrt (m * k) * sqrt (m * k) = m * k)
    by (apply sqrt_sqrt; nra).
  set (s := sqrt (m * k)) in *.
  split; intros H.
  - assert (Hlt : c < 2 * s).
    { apply (Rmult_lt_reg_r (/ (2 * s))); [apply Rinv_0_lt_compat; lra|].
      replace (2 * s * / (2 * s)) with 1 by (field; lra). exact H. }
    nra.
  - assert (Hlt : c < 2 * s) by nra.
    apply (Rmult_lt_reg_r (2 * s)); [lra|].
    replace (c / (2 * s) * (2 * s)) with c by (field; lra). lra.
Qed.

Lemma zeta_times_omega_n (m c k : R) :
  0 < m -> 0 < k -> c / (2 * sqrt (m * k)) * sqrt (k / m) = c / (2 * m).
Proof.
  intros Hm Hk.
  rewrite sqrt_mult by lra. rewrite sqrt_div by lra.
  assert (Hsm : 0 < sqrt m) by (apply sqrt_lt_R0, Hm).
  assert (Hsk : 0 < sqrt k) by (apply sqrt_lt_R0, Hk).
  assert (Hmm : sqrt m * sqrt m = m) by (apply sqrt_sqrt; lra).
  rewrite <- Hmm at 3. field. split; lra.
Qed.

(** X12.  The sidebar's natural frequency and damping ratio describe the
    poles: for [m > 0], [k > 0], [c >= 0] the damping ratio is below 1
    exactly when the poles are not real, and then every pole has modulus
    [omega_n] and real part [- zeta * omega_n]. *)
Theorem damping_ratio_locates_poles
    (h : handler) m c k F0 omega max_freq (n : Z) :
  phase_total h -> (0 <= n)%Z ->
  0 < m -> 0 <= c -> 0 < k ->
  exists omega_n zeta r,
    system_characteristics m c k = Value (Fin omega_n, Fin zeta) /\
    run h (calculate_laplace_transform m c k F0 omega max_freq n) = Ok r /\
    0 < omega_n /\ 0 <= zeta /\
    (zeta < 1 <-> forall p, In p (poles r) -> Im p <> 0) /\
    (zeta < 1 -> forall p, In p (poles r) ->
                 cabs p = omega_n /\ Re p = - (zeta * omega_n)).
Proof.
  intros Hh Hn Hm Hc Hk.
  assert (Hm0 : m <> 0) by lra.
  destruct (analyze_returns h m c k F0 omega max_freq n Hh Hm0 Hn)
    as [ws [ph [_ [_ Hrun]]]].
  pose proof (sqrt_mk_pos m k Hm Hk) as Hs.
  exists (sqrt (k / m)), (c / (2 * sqrt (m * k))). eexists.
  split; [apply system_characteristics_values; assumption|].
  split; [exact Hrun|]. simpl. rewrite np_roots_quadratic by exact Hm0.
  assert (Hwn : 0 < sqrt (k / m))
    by (apply sqrt_lt_R0, Rdiv_lt_0_compat; assumption).
  split; [exact Hwn|]. split.
  { apply Rmult_le_pos; [exact Hc | left; apply Rinv_0_lt_compat; lra]. }
  rewrite zeta_below_one by assumption.
  rewrite zeta_times_omega_n by assumption.
  unfold quadratic_roots.
  destruct (Rltb (c * c - 4 * m * k) 0) eqn:Hd.
  - apply Rltb_true in Hd.
    assert (Hq0 : 0 < sqrt (- (c * c - 4 * m * k))) by (apply sqrt_lt_R0; lra).
    assert (Hq : sqrt (- (c * c - 4 * m * k)) * sqrt (- (c * c - 4 * m * k))
                 = - (c * c - 4 * m * k)) by (apply sqrt_sqrt; lra).
    set (q := sqrt (- (c * c - 4 * m * k))) in *.
    assert (H2m : 0 < / (2 * m)) by (apply Rinv_0_lt_compat; lra).
    split.
    + split; [|intros _; lra]. intros _ p [<-|[<-|[]]]; simpl; unfold Rdiv; nra.
    + intros _ p Hp.
      assert (Hmod : Re p * Re p + Im p * Im p = k / m).
      { destruct Hp as [<-|[<-|[]]]; simpl.
        - replace (- c / (2 * m) * (- c / (2 * m)) + q / (2 * m) * (q / (2 * m)))
            with ((c * c + q * q) / (4 * m * m)) by (field; exact Hm0).
          rewrite Hq. field. exact Hm0.
        - replace (- c / (2 * m) * (- c / (2 * m)) + - q / (2 * m) * (- q / (2 * m)))
            with ((c * c + q * q) / (4 * m * m)) by (field; exact Hm0).
          rewrite Hq. field. exact Hm0. }
      split.
      * unfold cabs. now rewrite Hmod.
      * destruct Hp as [<-|[<-|[]]]; simpl; field; exact Hm0.
  - apply Rltb_false in Hd. split.
    + split; [intros H; lra|]. intros H. exfalso.
      apply (H (Cx ((- c + sqrt (c * c - 4 * m * k)) / (2 * m)) 0)); [now left|].
      reflexivity.
    + intros H. lra.
Qed.

Lemma damping_ratio_locates_poles_witness :
  exists omega_n zeta r,
    system_characteristics 1 2 10 = Value (Fin omega_n, Fin zeta) /\
    run frozen_handler (calculate_laplace_transform 1 2 10 10 5 100 1000) = Ok r /\
    0 < omega_n /\ 0 <= zeta /\
    (zeta < 1 <-> forall p, In p (poles r) -> Im p <> 0) /\
    (zeta < 1 -> forall p, In p (poles r) ->
                 cabs p = omega_n /\ Re p = - (zeta * omega_n)).
Proof.
  apply (damping_ratio_locates_poles frozen_handler 1 2 10 10 5 100 1000
           frozen_handler_phase_total); [lia | lra | lra | lra].
Defined.

(** ** The analytical solution *)

Lemma fsqrt_fin (a : R) : 0 <= a -> fsqrt (Fin a) = Fin (sqrt a).
Proof. intros Ha. unfold fsqrt. rtest. reflexivity. Qed.

Lemma fdiv_fin (a b : R) : b <> 0 -> fdiv (Fin a) (Fin b) = Fin (a / b).
Proof.
  intros Hb. unfold fdiv.
  replace (Reqb b 0) with false by (symmetry; now apply Reqb_false).
  reflexivity.
Qed.

Lemma py_div_value (a b : R) : b <> 0 -> py_div a b = Value (a / b).
Proof.
  intros Hb. unfold py_div.
  replace (Reqb b 0) with false by (symmetry; now apply Reqb_false).
  reflexivity.
Qed.

Lemma py_div_zero (a : R) : py_div a 0 = ZeroDivisionError.
Proof. unfold py_div. rtest. reflexivity. Qed.

Lemma zip_with_map {A B C D} (f : B -> C -> D) (g : A -> B) (h : A -> C)
    (l : list A) :
  zip_with f (map g l) (map h l) = map (fun x => f (g x) (h x)) l.
Proof.
  unfold zip_with. induction l as [|a l IH]; simpl; [reflexivity|].
  now rewrite IH.
Qed.

Lemma forcing_denominator_nonneg (m c k omega : R) :
  0 <= forcing_denominator m c k omega.
Proof.
  unfold forcing_denominator.
  pose proof (Rle_0_sqr (k - m * (omega * omega))) as H1.
  pose proof (Rle_0_sqr (c * omega)) as H2. unfold Rsqr in H1, H2. lra.
Qed.

Lemma cabs_forcing_denominator (m c k omega : R) :
  cabs (denominator_at m c k (Cx 0 omega)) = sqrt (forcing_denominator m c k omega).
Proof.
  rewrite denominator_at_jw. unfold cabs, forcing_denominator; simpl.
  f_equal. ring.
Qed.

(** One sample of the particular solution. *)
Lemma particular_sample (m c k F0 omega tau : R) :
  forcing_denominator m c k omega <> 0 ->
  fmul (fdiv (Fin F0) (fsqrt (Fin (forcing_denominator m c k omega))))
       (fsin (fsub (fmul (Fin omega) (Fin tau))
                   (np_arctan2 (Fin (c * omega))
                               (Fin (k - m * (omega * omega))))))
  = Fin (steady_state m c k F0 omega tau).
Proof.
  intros Hd. pose proof (forcing_denominator_nonneg m c k omega) as Hn.
  rewrite fsqrt_fin by exact Hn.
  rewrite fdiv_fin.
  - simpl. unfold steady_state. rewrite cabs_forcing_denominator. reflexivity.
  - intros Hs. apply Hd. apply sqrt_eq_0; assumption.
Qed.

(** Arithmetic on finite numbers, as rewriting rules. *)
Lemma fmul_fin (a b : R) : fmul (Fin a) (Fin b) = Fin (a * b).
Proof. reflexivity. Qed.

Lemma fadd_fin (a b : R) : fadd (Fin a) (Fin b) = Fin (a + b).
Proof. reflexivity. Qed.

Lemma fsub_fin (a b : R) : fsub (Fin a) (Fin b) = Fin (a + - b).
Proof. reflexivity. Qed.

Lemma fneg_fin (a : R) : fneg (Fin a) = Fin (- a).
Proof. reflexivity. Qed.

Lemma fexp_fin (a : R) : fexp (Fin a) = Fin (exp a).
Proof. reflexivity. Qed.

Lemma fcos_fin (a : R) : fcos (Fin a) = Fin (cos a).
Proof. reflexivity. Qed.

Lemma fsin_fin (a : R) : fsin (Fin a) = Fin (sin a).
Proof. reflexivity. Qed.

Lemma np_arctan2_fin (a b : R) : np_arctan2 (Fin a) (Fin b) = Fin (atan2 a b).
Proof. reflexivity. Qed.

Create Rewrite HintDb finite_arith.
#[local] Hint Rewrite fmul_fin fadd_fin fsub_fin fneg_fin fexp_fin fcos_fin
  fsin_fin np_arctan2_fin : finite_arith.

Lemma zeta_above_one (m c k : R) :
  0 < m -> 0 < k -> 0 <= c ->
  (1 < c / (2 * sqrt (m * k)) <-> 4 * m * k < c * c).
Proof.
  intros Hm Hk Hc.
  pose proof (sqrt_mk_pos m k Hm Hk) as Hs.
  assert (Hsq : sqrt (m * k) * sqrt (m * k) = m * k)
    by (apply sqrt_sqrt; nra).
  set (s := sqrt (m * k)) in *.
  split; intros H.
  - assert (Hlt : 2 * s < c).
    { apply (Rmult_lt_reg_r (/ (2 * s))); [apply Rinv_0_lt_compat; lra|].
      replace (2 * s * / (2 * s)) with 1 by (field; lra). exact H. }
    nra.
  - assert (Hlt : 2 * s < c) by nra.
    apply (Rmult_lt_reg_r (2 * s)); [lra|].
    replace (c / (2 * s) * (2 * s)) with c by (field; lra). lra.
Qed.

Lemma zeta_square (m c k : R) :
  0 < m -> 0 < k ->
  c / (2 * sqrt (m * k)) * (c / (2 * sqrt (m * k))) = c * c / (4 * m * k).
Proof.
  intros Hm Hk.
  pose proof (sqrt_mk_pos m k Hm Hk) as Hs.
  assert (Hsq : sqrt (m * k) * sqrt (m * k) = m * k)
    by (apply sqrt_sqrt; nra).
  replace (c / (2 * sqrt (m * k)) * (c / (2 * sqrt (m * k))))
    with (c * c / (4 * (sqrt (m * k) * sqrt (m * k)))) by (field; lra).
  rewrite Hsq. field. split; lra.
Qed.

Lemma omega_n_times_root (m c k : R) :
  0 < m -> 0 < k -> 4 * m * k <= c * c ->
  sqrt (k / m)
  * sqrt (c / (2 * sqrt (m * k)) * (c / (2 * sqrt (m * k))) + - (1))
  = sqrt (c * c - 4 * m * k) / (2 * m).
Proof.
  intros Hm Hk Hd. rewrite zeta_square by assumption.
  assert (Hkm : 0 < k / m) by (apply Rdiv_lt_0_compat; assumption).
  assert (Hmk : 0 < m * k) by (apply Rmult_lt_0_compat; assumption).
  assert (Hz : 0 <= c * c / (4 * m * k) + - (1)).
  { apply Rmult_le_reg_r with (4 * m * k); [lra|].
    replace ((c * c / (4 * m * k) + - (1)) * (4 * m * k)) with (c * c - 4 * m * k)
      by (field; split; lra).
    lra. }
  rewrite <- sqrt_mult by lra.
  apply sqrt_lem_1.
  - apply Rmult_le_pos; lra.
  - apply Rmult_le_pos; [apply sqrt_pos | left; apply Rinv_0_lt_compat; lra].
  - replace (sqrt (c * c - 4 * m * k) / (2 * m) * (sqrt (c * c - 4 * m * k) / (2 * m)))
      with (sqrt (c * c - 4 * m * k) * sqrt (c * c - 4 * m * k) / (4 * m * m))
      by (field; lra).
    rewrite sqrt_sqrt by lra. field. split; lra.
Qed.

(** X14.  Overdamped case ([m, k, c > 0], [c^2 > 4 m k], [omega <> 0]).
    Every returned sample is [A1 exp (r1 t) + A2 exp (r2 t)] plus the
    steady-state response, where [r1] and [r2] are the two poles
    [np.roots [m; c; k]] finds, and [A1], [A2] match the initial conditions:
    [A1 + A2 = x0], [A1 r1 + A2 r2 = v0]; without forcing the solution
    starts at [x0]. *)
Theorem analytical_solution_overdamped (ts : list R) (m c k F0 omega x0 v0 : R) :
  0 < m -> 0 < k -> 0 < c -> 4 * m * k < c * c -> omega <> 0 ->
  exists r1 r2 A1 A2,
    np_roots [m; c; k] = [Cx r1 0; Cx r2 0] /\
    A1 + A2 = x0 /\ A1 * r1 + A2 * r2 = v0 /\
    analytical_solution_laplace (map Fin ts) m c k F0 omega x0 v0 =
      Value (map (fun tau => Fin (A1 * exp (r1 * tau) + A2 * exp (r2 * tau)
                                  + steady_state m c k F0 omega tau)) ts) /\
    (F0 = 0 ->
     analytical_solution_laplace [Fin 0] m c k F0 omega x0 v0 = Value [Fin x0]).
Proof.
  intros Hm Hk Hc Hd Hw.
  pose proof (sqrt_mk_pos m k Hm Hk) as Hs.
  assert (Hkm : 0 < k / m) by (apply Rdiv_lt_0_compat; assumption).
  assert (Hmk : 0 < m * k) by (apply Rmult_lt_0_compat; assumption).
  assert (Hq0 : 0 < sqrt (c * c - 4 * m * k)) by (apply sqrt_lt_R0; lra).
  pose proof (omega_n_times_root m c k Hm Hk ltac:(lra)) as Hroot.
  pose proof (zeta_times_omega_n m c k Hm Hk) as Hzw.
  pose proof (proj2 (zeta_above_one m c k Hm Hk ltac:(lra)) Hd) as Hz1.
  assert (Hzz : 0 <= c / (2 * sqrt (m * k)) * (c / (2 * sqrt (m * k))) + - (1)) by nra.
  assert (Hden : forcing_denominator m c k omega <> 0).
  { unfold forcing_denominator.
    pose proof (Rle_0_sqr (k - m * (omega * omega))) as H1.
    assert (H2 : 0 < (c * omega) * (c * omega)).
    { apply (Rsqr_pos_lt (c * omega)).
      apply Rmult_integral_contrapositive_currified; lra. }
    unfold Rsqr in H1. lra. }
  set (wn := sqrt (k / m)) in *.
  set (z := c / (2 * sqrt (m * k))) in *.
  set (rt := sqrt (z * z + - (1))) in *.
  set (q := sqrt (c * c - 4 * m * k)) in *.
  assert (H2m : 0 < / (2 * m)) by (apply Rinv_0_lt_compat; lra).
  assert (Hgap : - z * wn + wn * rt + - (- z * wn + - (wn * rt)) <> 0).
  { replace (- z * wn + wn * rt + - (- z * wn + - (wn * rt)))
      with (2 * (wn * rt)) by ring.
    rewrite Hroot. unfold Rdiv. nra. }
  exists (- z * wn + wn * rt), (- z * wn + - (wn * rt)),
    ((v0 + - ((- z * wn + - (wn * rt)) * x0))
     / (- z * wn + wn * rt + - (- z * wn + - (wn * rt)))),
    ((( - z * wn + wn * rt) * x0 + - v0)
     / (- z * wn + wn * rt + - (- z * wn + - (wn * rt)))).
  assert (Hall : forall ts' : list R,
    analytical_solution_laplace (map Fin ts') m c k F0 omega x0 v0 =
    Value (map (fun tau =>
      Fin ((v0 + - ((- z * wn + - (wn * rt)) * x0))
           / (- z * wn + wn * rt + - (- z * wn + - (wn * rt)))
           * exp ((- z * wn + wn * rt) * tau)
           + ((- z * wn + wn * rt) * x0 + - v0)
             / (- z * wn + wn * rt + - (- z * wn + - (wn * rt)))
             * exp ((- z * wn + - (wn * rt)) * tau)
           + steady_state m c k F0 omega tau)) ts')).
  { intros ts'. unfold analytical_solution_laplace.
    rewrite py_div_value by lra. cbn [cbind]. cbv zeta.
    fold (forcing_denominator m c k omega).
    rewrite py_div_value by exact Hden. cbn [cbind].
    rewrite (fsqrt_fin (k / m)) by lra. rewrite (fsqrt_fin (m * k)) by lra.
    fold wn. autorewrite with finite_arith. rewrite (fdiv_fin c) by lra. fold z.
    change (fltb (Fin z) (Fin 1)) with (Rltb z 1).
    change (feqb (Fin z) (Fin 1)) with (Reqb z 1).
    replace (Rltb z 1) with false by (symmetry; apply Rltb_false; lra).
    replace (Reqb z 1) with false by (symmetry; apply Reqb_false; lra).
    cbv beta iota. autorewrite with finite_arith.
    rewrite (fsqrt_fin (z * z + - (1))) by exact Hzz.
    fold rt. autorewrite with finite_arith.
    rewrite !fdiv_fin by exact Hgap.
    rewrite zip_with_map, map_map. f_equal. apply map_ext. intros tau.
    rewrite particular_sample by exact Hden.
    autorewrite with finite_arith. reflexivity. }
  split; [|split; [|split; [|split]]].
  - rewrite np_roots_quadratic by lra. unfold quadratic_roots.
    replace (Rltb (c * c - 4 * m * k) 0) with false
      by (symmetry; apply Rltb_false; lra).
    fold q. f_equal; [|f_equal]; f_equal.
    + replace (- z * wn) with (- (z * wn)) by ring. rewrite Hzw, Hroot. field. lra.
    + replace (- z * wn) with (- (z * wn)) by ring. rewrite Hzw, Hroot. field. lra.
  - field. exact Hgap.
  - field. exact Hgap.
  - apply Hall.
  - intros HF. pose proof (Hall [0]) as H0. cbn [map] in H0. rewrite H0.
    do 3 f_equal.
    rewrite !Rmult_0_r, exp_0. unfold steady_state. rewrite HF.
    unfold Rdiv at 3. rewrite Rmult_0_l, Rmult_0_l. field. exact Hgap.
Qed.

Lemma analytical_solution_overdamped_witness :
  exists r1 r2 A1 A2,
    np_roots [1; 3; 2] = [Cx r1 0; Cx r2 0] /\
    A1 + A2 = 1 /\ A1 * r1 + A2 * r2 = 0 /\
    analytical_solution_laplace (map Fin [0; 1]) 1 3 2 0 5 1 0 =
      Value (map (fun tau => Fin (A1 * exp (r1 * tau) + A2 * exp (r2 * tau)
                                  + steady_state 1 3 2 0 5 tau)) [0; 1]) /\
    (0 = 0 ->
     analytical_solution_laplace [Fin 0] 1 3 2 0 5 1 0 = Value [Fin 1]).
Proof.
  apply (analytical_solution_overdamped [0; 1] 1 3 2 0 5 1 0); lra.
Defined.

(** X15.  Critically damped case ([m, k, c > 0], [c^2 = 4 m k],
    [omega <> 0]).  Every returned sample is [(A1 + A2 t) exp (p t)] plus
    the steady-state response, where [p] is the double pole
    [np.roots [m; c; k]] finds, and [A1], [A2] match the initial conditions:
    [A1 = x0], [A2 + p A1 = v0]; without forcing the solution starts at
    [x0]. *)
Theorem analytical_solution_critical (ts : list R) (m c k F0 omega x0 v0 : R) :
  0 < m -> 0 < k -> 0 < c -> c * c = 4 * m * k -> omega <> 0 ->
  exists p A1 A2,
    np_roots [m; c; k] = [Cx p 0; Cx p 0] /\
    A1 = x0 /\ A2 + p * A1 = v0 /\
    analytical_solution_laplace (map Fin ts) m c k F0 omega x0 v0 =
      Value (map (fun tau => Fin ((A1 + A2 * tau) * exp (p * tau)
                                  + steady_state m c k F0 omega tau)) ts) /\
    (F0 = 0 ->
     analytical_solution_laplace [Fin 0] m c k F0 omega x0 v0 = Value [Fin x0]).
Proof.
  intros Hm Hk Hc Hd Hw.
  pose proof (sqrt_mk_pos m k Hm Hk) as Hs.
  assert (Hkm : 0 < k / m) by (apply Rdiv_lt_0_compat; assumption).
  assert (Hmk : 0 < m * k) by (apply Rmult_lt_0_compat; assumption).
  pose proof (zeta_times_omega_n m c k Hm Hk) as Hzw.
  assert (Hz1 : c / (2 * sqrt (m * k)) = 1).
  { pose proof (zeta_below_one m c k Hm Hk ltac:(lra)) as Hlt.
    pose proof (zeta_above_one m c k Hm Hk ltac:(lra)) as Hgt.
    destruct (Rtotal_order (c / (2 * sqrt (m * k))) 1) as [H|[H|H]];
      [apply Hlt in H; lra | exact H | apply Hgt in H; lra]. }
  assert (Hden : forcing_denominator m c k omega <> 0).
  { unfold forcing_denominator.
    pose proof (Rle_0_sqr (k - m * (omega * omega))) as H1.
    assert (H2 : 0 < (c * omega) * (c * omega)).
    { apply (Rsqr_pos_lt (c * omega)).
      apply Rmult_integral_contrapositive_currified; lra. }
    unfold Rsqr in H1. lra. }
  set (wn := sqrt (k / m)) in *.
  set (z := c / (2 * sqrt (m * k))) in *.
  assert (Hwn : wn = c / (2 * m)) by (rewrite <- Hzw, Hz1; ring).
  assert (Hall : forall ts' : list R,
    analytical_solution_laplace (map Fin ts') m c k F0 omega x0 v0 =
    Value (map (fun tau =>
      Fin ((x0 + (v0 + wn * x0) * tau) * exp (- wn * tau)
           + steady_state m c k F0 omega tau)) ts')).
  { intros ts'. unfold analytical_solution_laplace.
      rewrite py_div_value by lra. cbn [cbind]. cbv zeta.
      fold (forcing_denominator m c k omega).
      rewrite py_div_value by exact Hden. cbn [cbind].
      rewrite (fsqrt_fin (k / m)) by lra. rewrite (fsqrt_fin (m * k)) by lra.
      fold wn. autorewrite with finite_arith. rewrite (fdiv_fin c) by lra. fold z.
      change (fltb (Fin z) (Fin 1)) with (Rltb z 1).
      change (feqb (Fin z) (Fin 1)) with (Reqb z 1).
      replace (Rltb z 1) with false by (symmetry; apply Rltb_false; lra).
      replace (Reqb z 1) with true by (symmetry; apply Reqb_true; lra).
      cbv beta iota. autorewrite with finite_arith.
      rewrite zip_with_map, map_map. f_equal. apply map_ext. intros tau.
      rewrite particular_sample by exact Hden.
      autorewrite with finite_arith. reflexivity. }
  exists (- wn), x0, (v0 + wn * x0).
  split; [|split; [|split; [|split]]].
  - rewrite np_roots_quadratic by lra. unfold quadratic_roots.
    replace (c * c - 4 * m * k) with 0 by lra.
    replace (Rltb 0 0) with false by (symmetry; apply Rltb_false; lra).
    rewrite sqrt_0, Hwn. f_equal; [|f_equal]; f_equal; field; lra.
  - reflexivity.
  - ring.
  - apply Hall.
  - intros HF. pose proof (Hall [0]) as H0. cbn [map] in H0. rewrite H0.
    do 3 f_equal.
    rewrite !Rmult_0_r, exp_0. unfold steady_state. rewrite HF.
    unfold Rdiv. rewrite !Rmult_0_l. ring.
Qed.

Lemma analytical_solution_critical_witness :
  exists p A1 A2,
    np_roots [1; 2; 1] = [Cx p 0; Cx p 0] /\
    A1 = 1 /\ A2 + p * A1 = 0 /\
    analytical_solution_laplace (map Fin [0; 1]) 1 2 1 0 5 1 0 =
      Value (map (fun tau => Fin ((A1 + A2 * tau) * exp (p * tau)
                                  + steady_state 1 2 1 0 5 tau)) [0; 1]) /\
    (0 = 0 ->
     analytical_solution_laplace [Fin 0] 1 2 1 0 5 1 0 = Value [Fin 1]).
Proof.
  apply (analytical_solution_critical [0; 1] 1 2 1 0 5 1 0); lra.
Defined.

(** *** The phase of the underdamped branch *)







(** ** Energy *)

Lemma zip_with_length {A B C} (f : A -> B -> C) (a : list A) (b : list B) :
  length a = length b -> length (zip_with f a b) = length a.
Proof.
  intros H. unfold zip_with. rewrite length_map, length_combine, <- H.
  apply Nat.min_id.
Qed.

Lemma np_add_same_length (a b : list float64) :
  length a = length b -> np_add a b = Ok (zip_with fadd a b).
Proof.
  intros H. unfold np_add. rewrite H, Nat.eqb_refl. reflexivity.
Qed.

Lemma zip_with_fin (a b : list R) :
  zip_with fadd (map Fin a) (map Fin b) = map Fin (zip_with Rplus a b).
Proof.
  unfold zip_with. revert b. induction a as [|x a IH]; intros [|y b];
    simpl; try reflexivity.
  now rewrite IH.
Qed.

Lemma zip_with_nth {A B C} (f : A -> B -> C) (a : list A) (b : list B)
    (i : nat) (x : A) (y : B) :
  nth_error a i = Some x -> nth_error b i = Some y ->
  nth_error (zip_with f a b) i = Some (f x y).
Proof.
  unfold zip_with. revert b i. induction a as [|x' a IH]; intros [|y' b] [|i];
    simpl; try discriminate.
  - intros H1 H2. injection H1 as ->. injection H2 as ->. reflexivity.
  - apply IH.
Qed.

(** X17.  On finite samples of equal length, with [m >= 0] and [k >= 0],
    the energy computation raises nothing; kinetic, potential and total
    energy have one finite, non-negative sample per time, and each total
    sample is [m v^2 / 2 + k x^2 / 2]. *)
Theorem energy_analysis_nonnegative (m k : R) (xs vs : list R) :
  0 <= m -> 0 <= k -> length xs = length vs ->
  exists ke pe te,
    energy_analysis m k (map Fin xs) (map Fin vs)
      = Ok (map Fin ke, map Fin pe, map Fin te) /\
    length ke = length xs /\ length pe = length xs /\ length te = length xs /\
    Forall (fun e => 0 <= e) ke /\ Forall (fun e => 0 <= e) pe /\
    Forall (fun e => 0 <= e) te /\
    (forall i x v, nth_error xs i = Some x -> nth_error vs i = Some v ->
       nth_error te i = Some (0.5 * m * (v * v) + 0.5 * k * (x * x))).
Proof.
  intros Hm Hk Hlen.
  set (ke := map (fun v => 0.5 * m * (v * v)) vs).
  set (pe := map (fun x => 0.5 * k * (x * x)) xs).
  assert (Hke : Forall (fun e => 0 <= e) ke).
  { apply Forall_forall. intros e He. apply in_map_iff in He as [v [<- _]].
    pose proof (Rle_0_sqr v) as Hv. unfold Rsqr in Hv. nra. }
  assert (Hpe : Forall (fun e => 0 <= e) pe).
  { apply Forall_forall. intros e He. apply in_map_iff in He as [x [<- _]].
    pose proof (Rle_0_sqr x) as Hx. unfold Rsqr in Hx. nra. }
  assert (Hkl : length ke = length pe)
    by (unfold ke, pe; rewrite !length_map; symmetry; exact Hlen).
  exists ke, pe, (zip_with Rplus ke pe).
  split; [|split; [|split; [|split; [|split; [|split; [|split]]]]]].
  - unfold energy_analysis. rewrite !map_map.
    change (map (fun x => fmul (Fin (0.5 * m)) (fmul (Fin x) (Fin x))) vs)
      with (map (fun v => Fin (0.5 * m * (v * v))) vs).
    change (map (fun x => fmul (Fin (0.5 * k)) (fmul (Fin x) (Fin x))) xs)
      with (map (fun x => Fin (0.5 * k * (x * x))) xs).
    rewrite <- (map_map (fun v => 0.5 * m * (v * v)) Fin vs).
    rewrite <- (map_map (fun x => 0.5 * k * (x * x)) Fin xs).
    fold ke pe. rewrite np_add_same_length by (rewrite !length_map; exact Hkl).
    rewrite zip_with_fin. reflexivity.
  - unfold ke. rewrite length_map. symmetry. exact Hlen.
  - unfold pe. apply length_map.
  - rewrite zip_with_length by exact Hkl. unfold ke. rewrite length_map.
    symmetry. exact Hlen.
  - exact Hke.
  - exact Hpe.
  - apply Forall_forall. intros e He. unfold zip_with in He.
    apply in_map_iff in He as [[a b] [<- Hin]]. simpl.
    rewrite Forall_forall in Hke, Hpe.
    pose proof (Hke a (in_combine_l _ _ _ _ Hin)).
    pose proof (Hpe b (in_combine_r _ _ _ _ Hin)). lra.
  - intros i x v Hx Hv.
    apply (zip_with_nth Rplus ke pe i).
    + unfold ke. now rewrite nth_error_map, Hv.
    + unfold pe. now rewrite nth_error_map, Hx.
Qed.

Lemma energy_analysis_nonnegative_witness :
  exists ke pe te,
    energy_analysis 1 10 (map Fin [1; 0]) (map Fin [0; -3])
      = Ok (map Fin ke, map Fin pe, map Fin te) /\
    length ke = length [1; 0] /\ length pe = length [1; 0] /\
    length te = length [1; 0] /\
    Forall (fun e => 0 <= e) ke /\ Forall (fun e => 0 <= e) pe /\
    Forall (fun e => 0 <= e) te /\
    (forall i x v, nth_error [1; 0] i = Some x -> nth_error [0; -3] i = Some v ->
       nth_error te i = Some (0.5 * 1 * (v * v) + 0.5 * 10 * (x * x))).
Proof.
  apply (energy_analysis_nonnegative 1 10 [1; 0] [0; -3]); [lra | lra | reflexivity].
Defined.
